(** * shyLLM: the port-finding bootstrap (serve.py) and the request layer (shyLLM.py)

    A shallow embedding of the two Python modules.  External collaborators
    (the random generator, the socket layer, uvicorn, the clock, the
    transformers hub and the generation pipeline) are oracles gathered in a
    record; the Python code is translated statement by statement on top of
    them.  Loops that Python writes as [while True] take a fuel argument and
    answer [None] when the fuel is spent with the loop still running. *)

From Stdlib Require Import ZArith QArith Lia.
From stdpp Require Import base option list strings gmap.

Local Open Scope Z_scope.

(** ** Python exceptions *)

(** The exception classes the two modules raise, catch or let through.
    [socket.error] is an alias of [OSError]; [SystemExit] and
    [KeyboardInterrupt] derive from [BaseException] only, so that
    [except Exception] does not catch them. *)
#[local] Set Warnings "-register-all".
Inductive exn : Type :=
| OSError (errno : option Z)
| OverflowError (msg : string)
| ValueError (msg : string)
| TypeError (msg : string)
| IndexError
| KeyError (key : string)
| AttributeError (name : string)
| ValidationError (errors : list exn)
| HTTPException (status_code : Z) (detail : string)
| RuntimeError (msg : string)
| SystemExit (code : Z)
| KeyboardInterrupt.

(** [isinstance(e, OSError)] *)
Definition is_OSError (e : exn) : bool :=
  match e with OSError _ => true | _ => false end.

(** [isinstance(e, Exception)] *)
Definition is_Exception (e : exn) : bool :=
  match e with SystemExit _ | KeyboardInterrupt => false | _ => true end.

(** [e.errno == n]; on an [OSError] built without an errno the attribute is
    [None] and the comparison is false. *)
Definition errno_is (e : exn) (n : Z) : bool :=
  match e with
  | OSError (Some k) => Z.eqb k n
  | _ => false
  end.

(** The result of running a Python block. *)
Inductive outcome (A : Type) : Type :=
| Return (a : A)
| Raise (e : exn).
Arguments Return {A} a.
Arguments Raise {A} e.

(** ** serve.py *)

Module Serve.

(** What the process does to the outside, in order. *)
Inductive event : Type :=
| EvSocket (k : nat)                       (* sock = socket(AF_INET, SOCK_STREAM), attempt k *)
| EvBind (k : nat) (port : Z) (ok : bool)  (* sock.bind(("0.0.0.0", port)) *)
| EvClose (k : nat)                        (* sock.close() *)
| EvServe (port : Z)                       (* uvicorn.run("main:app", host, reload, port) *)
| EvStdout (port : Z) (elapsed : Z)        (* the start-up report *)
| EvStderr (line : string).

(** The collaborators of serve.py.  [randint k a b] is the value of the
    k-th call [randint(a, b)]; [bind k port] is [None] when the k-th
    [sock.bind] succeeds and the exception it raises otherwise;
    [uvicorn_run port] likewise for the blocking server call; [now k] is
    the k-th clock reading, in microseconds. *)
Record world : Type := World {
  randint : nat → Z → Z → Z;
  bind : nat → Z → option exn;
  uvicorn_run : Z → option exn;
  now : nat → Z
}.

(** [random.randint(a, b)] returns an integer N with a <= N <= b. *)
Definition randint_ok (w : world) : Prop :=
  ∀ k a b, a ≤ b → a ≤ randint w k a b ≤ b.

(** Process state: how many candidates were drawn, and the event log. *)
Record proc : Type := Proc {
  attempts : nat;
  events : list event
}.

Definition init : proc := Proc 0 [].

Definition emit (evs : list event) (st : proc) : proc :=
  Proc (attempts st) (events st ++ evs).

Definition next_attempt (st : proc) : proc :=
  Proc (S (attempts st)) (events st).

(** [port = 8000 + randint(0, 65535)] on attempt [k]. *)
Definition candidate (w : world) (k : nat) : Z :=
  8000 + randint w k 0 65535.

(** One pass through the body of [while True].  [inl st'] is "go round
    again", [inr r] leaves the function.  Creating and closing the probe
    socket are taken to succeed; [bind] is the call that can raise: a
    socket error is swallowed by [except socket_error], anything else
    (such as the OverflowError for a port above 65535) goes up. *)
Definition attempt (w : world) (st : proc) : proc + (outcome Z * proc) :=
  let k := attempts st in
  let port := candidate w k in
  let st := next_attempt st in
  let st := emit [EvSocket k] st in
  match bind w k port with
  | None =>
      let st := emit [EvBind k port true] st in
      let st := emit [EvClose k] st in
      inr (Return port, st)
  | Some e =>
      let st := emit [EvBind k port false] st in
      if is_OSError e then inl st else inr (Raise e, st)
  end.

(** [find_available_port()]; [None] when [fuel] passes of the loop did
    not leave it. *)
Fixpoint find_available_port (fuel : nat) (w : world) (st : proc)
  : option (outcome Z * proc) :=
  match fuel with
  | O => None
  | S fuel' =>
      match attempt w st with
      | inl st' => find_available_port fuel' w st'
      | inr r => Some r
      end
  end.

(** The [except OSError as e] clause of [run_server]. *)
Definition on_OSError (e : exn) (st : proc) : outcome unit * proc :=
  if errno_is e 98 then
    (Raise (SystemExit 1), emit [EvStderr "Unable to choose a free port."] st)
  else (Raise e, st).

Definition try_except_OSError (r : outcome unit * proc) : outcome unit * proc :=
  match r with
  | (Raise e, st) => if is_OSError e then on_OSError e st else r
  | _ => r
  end.

(** [run_server()] *)
Definition run_server (fuel : nat) (w : world) (st : proc)
  : option (outcome unit * proc) :=
  let start_time := now w 0 in
  match find_available_port fuel w st with
  | None => None
  | Some (Raise e, st) => Some (try_except_OSError (Raise e, st))
  | Some (Return port, st) =>
      let st := emit [EvServe port] st in
      match uvicorn_run w port with
      | Some e => Some (try_except_OSError (Raise e, st))
      | None =>
          let end_time := now w 1 in
          Some (Return tt, emit [EvStdout port (end_time - start_time)] st)
      end
  end.

(** How the interpreter ends after the module-level call [run_server()]. *)
Inductive process_end : Type :=
| Exit (status : Z)
| Traceback (e : exn).

Definition script (fuel : nat) (w : world) : option (process_end * list event) :=
  match run_server fuel w init with
  | None => None
  | Some (Return _, st) => Some (Exit 0, events st)
  | Some (Raise (SystemExit c), st) => Some (Exit c, events st)
  | Some (Raise e, st) => Some (Traceback e, events st)
  end.

(** The number of [bind] calls in an event log. *)
Definition is_bind (ev : event) : bool :=
  match ev with EvBind _ _ _ => true | _ => false end.

Definition bind_attempts (evs : list event) : nat :=
  length (filter (λ ev, is_bind ev = true) evs).

(** Sample worlds. *)
Definition busy_until (n : nat) : world :=
  World (λ k a b, a + (Z.of_nat k * 7919) `mod` (b - a + 1))
        (λ k _, if (k <? n)%nat then Some (OSError (Some 98)) else None)
        (λ _, None)
        (λ k, Z.of_nat k * 1000000).

(** Every bind fails with "address already in use". *)
Definition always_busy : world :=
  World (λ k a b, a) (λ _ _, Some (OSError (Some 98))) (λ _, None) (λ _, 0).

(** The probe finds a port at once; the server's own bind then fails with
    the given errno. *)
Definition lost_race (errno : option Z) : world :=
  World (λ k a b, a + 80) (λ _ _, None) (λ _, Some (OSError errno)) (λ _, 0).

(** Attempt [k] ends in a socket error. *)
Definition bind_fails (w : world) (k : nat) : Prop :=
  ∃ e, bind w k (candidate w k) = Some e ∧ is_OSError e = true.

(** The log of [n] attempts in a row, from attempt [k] on, that each end
    in a socket error: a socket and a failed bind, and no close. *)
Fixpoint failed_log (w : world) (k n : nat) : list event :=
  match n with
  | O => []
  | S n' => EvSocket k :: EvBind k (candidate w k) false :: failed_log w (S k) n'
  end.

Definition is_close (ev : event) : bool :=
  match ev with EvClose _ => true | _ => false end.

Definition is_socket (ev : event) : bool :=
  match ev with EvSocket _ => true | _ => false end.

Definition is_serve (ev : event) : bool :=
  match ev with EvServe _ => true | _ => false end.

Definition is_stdout (ev : event) : bool :=
  match ev with EvStdout _ _ => true | _ => false end.

Definition is_stderr (ev : event) : bool :=
  match ev with EvStderr _ => true | _ => false end.

(** How many events of a log satisfy a test. *)
Fixpoint count (test : event → bool) (evs : list event) : nat :=
  match evs with
  | [] => 0
  | ev :: evs' => ((if test ev then 1 else 0) + count test evs')%nat
  end.

(** The events of the probe loop. *)
Definition is_probe (ev : event) : bool :=
  match ev with
  | EvSocket _ | EvBind _ _ _ | EvClose _ => true
  | _ => false
  end.

(** How the interpreter ends on an exception that reaches the top level. *)
Definition end_of (e : exn) : process_end :=
  match e with
  | SystemExit c => Exit c
  | _ => Traceback e
  end.

(** The first candidate is above 65535 and [bind] refuses it with an
    OverflowError, which is no socket error. *)
Definition out_of_range : world :=
  World (λ k a b, b)
        (λ _ port, if 65535 <? port then Some (OverflowError "bind(): port must be 0-65535.")
                   else None)
        (λ _, None)
        (λ _, 0).

(** The server runs and returns. *)
Definition quiet_run (n : nat) : world :=
  World (λ k a b, a + Z.of_nat k)
        (λ k _, if (k <? n)%nat then Some (OSError (Some 98)) else None)
        (λ _, None)
        (λ k, Z.of_nat k * 2500000).

End Serve.

(** ** shyLLM.py *)

Module ShyLLM.

(** *** Python values and strings *)

(** The values a request body carries and the handlers pass on.  A [str]
    is a sequence of code points below 256; a [float] is the rational it
    denotes. *)
Inductive value : Type :=
| VNone
| VBool (b : bool)
| VInt (n : Z)
| VFloat (x : Q)
| VStr (s : string).

(** [bool(v)] *)
Definition truthy (v : value) : bool :=
  match v with
  | VNone => false
  | VBool b => b
  | VInt n => negb (Z.eqb n 0)
  | VFloat x => negb (Qeq_bool x 0)
  | VStr s => negb (String.eqb s "")
  end.

(** [isinstance(v, str)] *)
Definition isinstance_str (v : value) : bool :=
  match v with VStr _ => true | _ => false end.

(** [isinstance(v, int)]; [bool] is a subclass of [int]. *)
Definition isinstance_int (v : value) : bool :=
  match v with VInt _ | VBool _ => true | _ => false end.

(** [v <= 0] on an instance of [int]. *)
Definition le_zero (v : value) : bool :=
  match v with
  | VInt n => Z.leb n 0
  | VBool b => negb b
  | _ => false
  end.

(** [c.isspace()] for a code point below 256: tab to carriage return, the
    four separators 0x1c..0x1f, space, NEL and the no-break space. *)
Definition is_space (c : Ascii.ascii) : bool :=
  let n := Ascii.N_of_ascii c in
  ((9 <=? n) && (n <=? 13) || (28 <=? n) && (n <=? 32)
   || (n =? 133) || (n =? 160))%N.

Fixpoint lstrip (s : string) : string :=
  match s with
  | EmptyString => EmptyString
  | String c s' => if is_space c then lstrip s' else s
  end.

Fixpoint rstrip (s : string) : string :=
  match s with
  | EmptyString => EmptyString
  | String c s' =>
      match rstrip s' with
      | EmptyString => if is_space c then EmptyString else String c EmptyString
      | r => String c r
      end
  end.

(** [s.strip()] *)
Definition strip (s : string) : string := rstrip (lstrip s).

Fixpoint all_space (s : string) : bool :=
  match s with
  | EmptyString => true
  | String c s' => is_space c && all_space s'
  end.

(** *** Configuration *)

(** [MODEL_NAME = os.environ.get("MODEL_NAME", "Qwen/Qwen2.5-Coder-7B-Instruct")] *)
Definition MODEL_NAME (environ : gmap string string) : string :=
  default "Qwen/Qwen2.5-Coder-7B-Instruct" (environ !! "MODEL_NAME").

(** [API_KEY = os.environ.get("SHYLLM_API_KEY")] *)
Definition API_KEY (environ : gmap string string) : option string :=
  environ !! "SHYLLM_API_KEY".

(** *** The transformers collaborators *)

Record Tokenizer : Type := { tokenizer_of : string }.
Record Model : Type := { model_of : string }.

(** A pipeline object; [serial] tells the objects of different executions
    of [load_model]'s body apart. *)
Record Pipeline : Type := MkPipeline {
  task : string;
  model : Model;
  tokenizer : Tokenizer;
  serial : nat
}.

(** One recorded call [llm_pipeline(prompt, max_length=, temperature=, top_p=)]. *)
Record invocation : Type := Invoke {
  inv_pipeline : Pipeline;
  inv_prompt : value;
  inv_max_length : value;
  inv_temperature : value;
  inv_top_p : value
}.

(** The process environment: [os.environ] and the oracles of the
    transformers library.  The first argument of an oracle counts the
    earlier executions ([from_pretrained n name] belongs to the n-th
    execution of [load_model]'s body, [generate n inv] to the n-th pipeline
    call); [None] from [pipeline_new] means the constructor succeeded. *)
Record env : Type := Env {
  environ : gmap string string;
  tokenizer_from_pretrained : nat → string → outcome Tokenizer;
  model_from_pretrained : nat → string → outcome Model;
  pipeline_new : nat → string → Model → Tokenizer → option exn;
  generate : nat → invocation → outcome (list (gmap string value))
}.

(** *** Process state and the monad of handlers *)

Inductive log_record : Type :=
| LogLoadError (model_name : string) (e : exn)   (* "Error loading model %s: %s" *)
| LogGenerateError (e : exn).                    (* "Error generating text" *)

Record state : Type := State {
  cache : list (string * Pipeline);   (* the store of lru_cache, most recent first *)
  loads : nat;                        (* executions of load_model's body *)
  invocations : list invocation;      (* pipeline calls, in order *)
  log : list log_record
}.

Definition init : state := State [] 0 [] [].

Definition M (A : Type) : Type := state → outcome A * state.

Definition ret {A} (a : A) : M A := λ st, (Return a, st).
Definition raise {A} (e : exn) : M A := λ st, (Raise e, st).
Definition bind {A B} (m : M A) (k : A → M B) : M B :=
  λ st, match m st with
        | (Return a, st') => k a st'
        | (Raise e, st') => (Raise e, st')
        end.

(** [try: body  except <class> as e: handler e] *)
Definition try_except {A} (body : M A) (catches : exn → bool) (handler : exn → M A) : M A :=
  λ st, match body st with
        | (Raise e, st') => if catches e then handler e st' else (Raise e, st')
        | r => r
        end.

Definition lift {A} (r : outcome A) : M A := λ st, (r, st).

#[export] Instance M_ret : MRet M := @ret.
#[export] Instance M_bind : MBind M := λ A B k m, bind m k.

Definition logger_exception (r : log_record) : M unit :=
  λ st, (Return tt, State (cache st) (loads st) (invocations st) (log st ++ [r])).

Definition set_cache (c : list (string * Pipeline)) (st : state) : state :=
  State c (loads st) (invocations st) (log st).

(** *** Model loading *)

(** The body of [load_model], without its decorator. *)
Definition load_model_body (E : env) (model_name : string) : M Pipeline :=
  try_except
    (λ st,
       let n := loads st in
       let st := State (cache st) (S n) (invocations st) (log st) in
       (tokenizer ← lift (tokenizer_from_pretrained E n model_name);
        model ← lift (model_from_pretrained E n model_name);
        match pipeline_new E n "text-generation" model tokenizer with
        | None => mret (MkPipeline "text-generation" model tokenizer n)
        | Some e => raise e
        end) st)
    is_Exception
    (λ e, logger_exception (LogLoadError model_name e);; raise e).

(** [functools.lru_cache]: the store lists the cached calls, most recently
    used first. *)
Fixpoint lru_find {A} (key : string) (c : list (string * A)) : option A :=
  match c with
  | [] => None
  | (k, v) :: c' => if decide (k = key) then Some v else lru_find key c'
  end.

Fixpoint lru_drop {A} (key : string) (c : list (string * A)) : list (string * A) :=
  match c with
  | [] => []
  | (k, v) :: c' => if decide (k = key) then c' else (k, v) :: lru_drop key c'
  end.

(** A hit returns the stored result and marks it most recently used; a miss
    runs the function, stores its result unless it raised, and drops the
    least recently used entries beyond [maxsize]. *)
Definition lru_cache (maxsize : nat) (f : string → M Pipeline) (key : string) : M Pipeline :=
  λ st,
    match lru_find key (cache st) with
    | Some v => (Return v, set_cache ((key, v) :: lru_drop key (cache st)) st)
    | None =>
        match f key st with
        | (Return v, st') => (Return v, set_cache (take maxsize ((key, v) :: cache st')) st')
        | (Raise e, st') => (Raise e, st')
        end
    end.

(** [@lru_cache(maxsize = 1) def load_model(model_name)] *)
Definition load_model (E : env) : string → M Pipeline :=
  lru_cache 1 (load_model_body E).

(** *** The request model *)

Record Query : Type := MkQuery {
  prompt : value;
  max_length : value;
  temperature : value;
  top_p : value
}.

(** [ValidationError(errors, cls)].  [field_validator] is pydantic 2, and
    there [ValidationError] is the class of pydantic_core, which cannot be
    built from Python: the call itself raises TypeError, whatever the
    arguments. *)
Definition ValidationError_new (errors : list exn) : outcome exn :=
  Raise (TypeError "No constructor defined for ValidationError").

(** [raise <expression>]: the exception the expression gives, or the one
    raised while evaluating it. *)
Definition raise_value {A} (r : outcome exn) : outcome A :=
  match r with
  | Return e => Raise e
  | Raise e => Raise e
  end.

(** [Query.prompt_not_empty(cls, v)] *)
Definition prompt_not_empty (v : value) : outcome value :=
  let errors : list exn := [] in
  let errors :=
    if negb (truthy v) then errors ++ [ValueError "Prompt cannot be empty"] else errors in
  let errors :=
    if negb (isinstance_str v) then errors ++ [TypeError "Prompt must be a string"] else errors in
  match errors with
  | _ :: _ => raise_value (ValidationError_new errors)
  | [] =>
      match v with
      | VStr s => Return (VStr (strip s))
      | _ => Raise (AttributeError "strip")
      end
  end.

(** [Query.validate_max_length(cls, v)] *)
Definition validate_max_length (v : value) : outcome value :=
  if negb (isinstance_int v) || le_zero v then
    raise_value
      (ValidationError_new [ValueError "max_length must be a positive integer"])
  else Return v.

(** How the schema library reads a raw body value at a field annotated
    [str], [int] or [float], before the field's own validator runs.  Which
    conversions it attempts (none, or numeric strings and integral floats
    as well) is the library's business; a value that already has the
    annotated type is taken as it is. *)
Class CoreSchema : Type := {
  as_str : value → option string;
  as_int : value → option Z;
  as_float : value → option Q;
  as_str_str : ∀ s, as_str (VStr s) = Some s;
  as_int_int : ∀ n, as_int (VInt n) = Some n;
  as_float_float : ∀ x, as_float (VFloat x) = Some x
}.

(** No conversion at all. *)
#[export] Instance strict : CoreSchema := {|
  as_str v := match v with VStr s => Some s | _ => None end;
  as_int v := match v with VInt n => Some n | _ => None end;
  as_float v := match v with VFloat x => Some x | _ => None end;
  as_str_str _ := eq_refl;
  as_int_int _ := eq_refl;
  as_float_float _ := eq_refl
|}.

(** Reading a string of decimal digits as a number. *)
Definition digit (c : Ascii.ascii) : option Z :=
  let n := Z.of_N (Ascii.N_of_ascii c) in
  if (48 <=? n) && (n <=? 57) then Some (n - 48) else None.

Fixpoint digits (s : string) (acc : Z) : option Z :=
  match s with
  | EmptyString => Some acc
  | String c s' =>
      match digit c with
      | Some d => digits s' (10 * acc + d)
      | None => None
      end
  end.

(** Some conversions of the schema library's default (lax) mode: at an
    [int] field a boolean counts as 0 or 1, a float without fractional part
    as that integer, and a non-empty string of decimal digits as the number
    it spells; at a [float] field an integer is taken as a float. *)
Definition lax : CoreSchema := {|
  as_str v := match v with VStr s => Some s | _ => None end;
  as_int v :=
    match v with
    | VInt n => Some n
    | VBool b => Some (if b then 1 else 0)
    | VFloat x =>
        if Qnum x mod Z.pos (Qden x) =? 0 then Some (Qnum x / Z.pos (Qden x)) else None
    | VStr (String c s) => digits (String c s) 0
    | _ => None
    end;
  as_float v :=
    match v with
    | VFloat x => Some x
    | VInt n => Some (inject_Z n)
    | _ => None
    end;
  as_str_str _ := eq_refl;
  as_int_int _ := eq_refl;
  as_float_float _ := eq_refl
|}.

#[export] Instance outcome_ret : MRet outcome := @Return.
#[export] Instance outcome_bind : MBind outcome :=
  λ A B k m, match m with Return a => k a | Raise e => Raise e end.

(** One field of the model: the default when the body lacks it (defaults
    are not validated), else the annotation and then the field validator. *)
Definition field (body : gmap string value) (name : string) (dflt : option value)
    (core : value → option value) (validator : value → outcome value) : outcome value :=
  match body !! name with
  | None =>
      match dflt with
      | Some d => Return d
      | None => Raise (ValidationError [ValueError "Field required"])
      end
  | Some raw =>
      match core raw with
      | Some v => validator v
      | None => Raise (ValidationError [TypeError name])
      end
  end.

(** Building a [Query] from the body; the first field that fails decides the error. *)
Definition Query_init `{CoreSchema} (body : gmap string value) : outcome Query :=
  p ← field body "prompt" None (λ v, VStr <$> as_str v) prompt_not_empty;
  n ← field body "max_length" (Some (VInt 100)) (λ v, VInt <$> as_int v) validate_max_length;
  t ← field body "temperature" (Some (VFloat 1)) (λ v, VFloat <$> as_float v) Return;
  q ← field body "top_p" (Some (VFloat (95 # 100))) (λ v, VFloat <$> as_float v) Return;
  mret (MkQuery p n t q).

(** *** Endpoints *)

Definition root : M (gmap string value) :=
  mret {[ "message" := VStr "LLM Backend is running!" ]}.

Definition health_check : M (gmap string value) :=
  mret {[ "status" := VStr "ok" ]}.

(** [llm_pipeline(query.prompt, max_length = ..., temperature = ..., top_p = ...)] *)
Definition call_pipeline (E : env) (llm_pipeline : Pipeline) (query : Query)
  : M (list (gmap string value)) :=
  λ st,
    let inv := Invoke llm_pipeline (prompt query) (max_length query)
                      (temperature query) (top_p query) in
    (generate E (length (invocations st)) inv,
     State (cache st) (loads st) (invocations st ++ [inv]) (log st)).

(** [l[0]] and [d[k]] *)
Definition getitem0 {A} (l : list A) : outcome A :=
  match l with x :: _ => Return x | [] => Raise IndexError end.

Definition getitem (d : gmap string value) (k : string) : outcome value :=
  match d !! k with Some v => Return v | None => Raise (KeyError k) end.

(** The suite of the [try] statement in [generate_text]. *)
Definition generation (E : env) (query : Query) : M (gmap string value) :=
  llm_pipeline ← load_model E (MODEL_NAME (environ E));
  output ← call_pipeline E llm_pipeline query;
  first ← lift (getitem0 output);
  text ← lift (getitem first "generated_text");
  mret (<["prompt" := prompt query]> {[ "response" := text ]}).

(** [truthy (VStr api_key) && api_key != API_KEY] *)
Definition unauthorized (E : env) (api_key : string) : bool :=
  truthy (VStr api_key) && negb (bool_decide (API_KEY (environ E) = Some api_key)).

(** The [except Exception as e] clause of [generate_text]; the cause [e]
    goes to the log (and to [__cause__]), not into the response. *)
Definition on_generation_error (e : exn) : M (gmap string value) :=
  logger_exception (LogGenerateError e);;
  raise (HTTPException 500 "Failed to generate text.").

(** The whole [try] statement of [generate_text]. *)
Definition try_generation (E : env) (query : Query) : M (gmap string value) :=
  try_except (generation E query) is_Exception on_generation_error.

(** [generate_text(query, api_key = '')] *)
Definition generate_text (E : env) (query : Query) (api_key : string)
  : M (gmap string value) :=
  if unauthorized E api_key then
    raise (HTTPException 401 "Unauthorized API key provided.")
  else try_generation E query.

(** A request as the framework sees it.  The body of POST /generate is a
    JSON object; [api_key] is the optional query parameter. *)
Inductive request : Type :=
| GetRoot
| GetHealth
| PostGenerate (body : gmap string value) (api_key : option string).

(** [Rejected]: building the [Query] from the body raised, and the handler
    was not called (the framework answers a validation error of the schema
    with 422 and any other exception with 500).  [Handled]: what the
    handler returned or raised. *)
Inductive reply : Type :=
| Rejected (e : exn)
| Handled (r : outcome (gmap string value)).

Definition handled (m : M (gmap string value)) (st : state) : reply * state :=
  let (r, st') := m st in (Handled r, st').

(** Dispatch of one request.  For POST /generate the framework builds the
    [Query] argument from the body first and calls the handler only with
    a valid one; an omitted [api_key] takes the default [""]. *)
Definition serve `{CoreSchema} (E : env) (req : request) (st : state) : reply * state :=
  match req with
  | GetRoot => handled root st
  | GetHealth => handled health_check st
  | PostGenerate body api_key =>
      match Query_init body with
      | Raise e => (Rejected e, st)
      | Return query => handled (generate_text E query (default "" api_key)) st
      end
  end.

(** The state after a sequence of requests. *)
Fixpoint serve_all `{CoreSchema} (E : env) (reqs : list request) (st : state) : state :=
  match reqs with
  | [] => st
  | req :: reqs' => serve_all E reqs' (serve E req st).2
  end.

(** Sample environments: a hub where every load succeeds and every
    pipeline call has the given outcome. *)
Definition hub (vars : gmap string string)
    (answer : outcome (list (gmap string value))) : env :=
  Env vars
      (λ _ name, Return {| tokenizer_of := name |})
      (λ _ name, Return {| model_of := name |})
      (λ _ _ _ _, None)
      (λ _ _, answer).

Definition hello : outcome (list (gmap string value)) :=
  Return [ {[ "generated_text" := VStr "Hello" ]} ].

Definition ask (s : string) : Query :=
  MkQuery (VStr s) (VInt 100) (VFloat 1) (VFloat (95 # 100)).

(** The state after the calls [load_model(name)] for the names of a list,
    in order, whatever each returns or raises. *)
Fixpoint load_all (E : env) (names : list string) (st : state) : state :=
  match names with
  | [] => st
  | name :: names' => load_all E names' (load_model E name st).2
  end.

(** In a run of calls from [st], no call for a name other than [m] loads
    a model: each call is for [m] or raises. *)
Fixpoint no_other_loaded (E : env) (m : string) (names : list string) (st : state) : Prop :=
  match names with
  | [] => True
  | name :: names' =>
      (name = m ∨ ∃ e, (load_model E name st).1 = Raise e)
      ∧ no_other_loaded E m names' (load_model E name st).2
  end.

(** The pipeline object the sample hub builds on its n-th load. *)
Definition loaded (name : string) (n : nat) : Pipeline :=
  MkPipeline "text-generation" {| model_of := name |} {| tokenizer_of := name |} n.

(** The 401 response. *)
Definition unauthorized_error : exn :=
  HTTPException 401 "Unauthorized API key provided.".

(** The 500 response. *)
Definition generation_error : exn :=
  HTTPException 500 "Failed to generate text.".

(** Whether a string begins, or ends, with a whitespace character. *)
Definition head_space (s : string) : bool :=
  match s with
  | EmptyString => false
  | String c _ => is_space c
  end.

Fixpoint last_space (s : string) : bool :=
  match s with
  | EmptyString => false
  | String c s' =>
      match s' with
      | EmptyString => is_space c
      | String _ _ => last_space s'
      end
  end.

(** The errors [prompt_not_empty] collects for a value. *)
Definition prompt_errors (v : value) : list exn :=
  (if truthy v then [] else [ValueError "Prompt cannot be empty"])
  ++ (if isinstance_str v then [] else [TypeError "Prompt must be a string"]).

(** A hub that cannot fetch the tokenizer: every load raises [e]. *)
Definition offline (vars : gmap string string) (e : exn) : env :=
  Env vars
      (λ _ _, Raise e)
      (λ _ name, Return {| model_of := name |})
      (λ _ _ _ _, None)
      (λ _ _, hello).

(** What the three calls in the body of [load_model] come to on the n-th
    execution: the pipeline built from the tokenizer and the model, or the
    first exception. *)
Definition hub_load (E : env) (n : nat) (model_name : string) : outcome Pipeline :=
  tokenizer ← tokenizer_from_pretrained E n model_name;
  model ← model_from_pretrained E n model_name;
  match pipeline_new E n "text-generation" model tokenizer with
  | None => Return (MkPipeline "text-generation" model tokenizer n)
  | Some e => Raise e
  end.

(** The log records an exception leaves behind in a handler that logs
    what [except Exception] catches. *)
Definition logged (mk : exn → log_record) (e : exn) : list log_record :=
  if is_Exception e then [mk e] else [].

(** The call record of [generate_text] for a query. *)
Definition invocation_of (llm : Pipeline) (query : Query) : invocation :=
  Invoke llm (prompt query) (max_length query) (temperature query) (top_p query).

(** The state with records added to the log, and with a call added to
    the record of pipeline calls. *)
Definition append_log (rs : list log_record) (st : state) : state :=
  State (cache st) (loads st) (invocations st) (log st ++ rs).

Definition record_call (inv : invocation) (st : state) : state :=
  State (cache st) (loads st) (invocations st ++ [inv]) (log st).

(** A hub whose pipeline returns the given output for every call. *)
Definition answering (output : list (gmap string value)) : env :=
  hub ∅ (Return output).

(** Every pipeline call on record used the one pipeline in the store, or
    nothing was loaded and called yet. *)
Definition one_pipeline (E : env) (st : state) : Prop :=
  (cache st = [] ∧ invocations st = [])
  ∨ ∃ p, cache st = [(MODEL_NAME (environ E), p)]
         ∧ Forall (λ inv, inv_pipeline inv = p) (invocations st).

(** How many requests of a list are POST /generate. *)
Fixpoint posts (reqs : list request) : nat :=
  match reqs with
  | [] => 0
  | PostGenerate _ _ :: reqs' => S (posts reqs')
  | _ :: reqs' => posts reqs'
  end.

End ShyLLM.

(** ** shyLLM.py, version 0.0.1: the /stream endpoint *)

Module ShyLLM_v1.
Import ShyLLM.

(** In this version the pipeline is built when the module is imported and
    kept in the global [llm_pipeline]; [generate n inv] is the outcome of
    the n-th pipeline call. *)
Record app : Type := App {
  llm_pipeline : Pipeline;
  generate : nat → invocation → outcome (list (gmap string value))
}.

(** A [fastapi.Response] object. *)
Record Response : Type := MkResponse {
  content : value;
  media_type : string
}.

(** [Response(content = c, media_type = m)]: the constructor renders the
    content, which is empty for [None] and encoded for a [str]; any
    other value of the model has no [encode]. *)
Definition Response_new (c : value) (m : string) : outcome Response :=
  match c with
  | VNone | VStr _ => Return (MkResponse c m)
  | _ => Raise (AttributeError "encode")
  end.

(** [await response]: a [Response] is not awaitable (it defines no
    [__await__]), so evaluating the expression raises TypeError. *)
Definition await (response : Response) : outcome Response :=
  Raise (TypeError "object Response can't be used in 'await' expression").

(** The suite of the [try] statement of [stream_text], once the pipeline
    has answered. *)
Definition stream_suite (answer : outcome (list (gmap string value))) : outcome Response :=
  output ← answer;
  first ← getitem0 output;
  text ← getitem first "generated_text";
  response ← Response_new text "text/plain";
  await response.

(** [stream_text(query)], on the record of pipeline calls. *)
Definition stream_text (A : app) (query : Query) (calls : list invocation)
  : outcome Response * list invocation :=
  let inv := invocation_of (llm_pipeline A) query in
  match stream_suite (generate A (length calls) inv) with
  | Raise e =>
      if is_Exception e
      then (Raise (HTTPException 500 "Error streaming text."), calls ++ [inv])
      else (Raise e, calls ++ [inv])
  | Return response => (Return response, calls ++ [inv])
  end.

End ShyLLM_v1.

(** * Properties of serve.py *)

Section ServeFacts.
Import Serve.

Lemma candidate_range w k :
  randint_ok w → 8000 ≤ candidate w k ≤ 73535.
Proof.
  intros Hr. unfold candidate.
  specialize (Hr k 0 65535). lia.
Qed.

(** The two ways round the loop body. *)
Lemma attempt_bound w st :
  bind w (attempts st) (candidate w (attempts st)) = None →
  attempt w st =
    inr (Return (candidate w (attempts st)),
         Proc (S (attempts st))
              (events st ++ [EvSocket (attempts st);
                             EvBind (attempts st) (candidate w (attempts st)) true;
                             EvClose (attempts st)])).
Proof.
  intros Hb. unfold attempt. rewrite Hb. unfold emit, next_attempt. simpl.
  by rewrite <- !app_assoc.
Qed.

Lemma attempt_retry w st :
  bind_fails w (attempts st) →
  attempt w st =
    inl (Proc (S (attempts st))
              (events st ++ [EvSocket (attempts st);
                             EvBind (attempts st) (candidate w (attempts st)) false])).
Proof.
  intros (e & Hb & He). unfold attempt. rewrite Hb, He. unfold emit, next_attempt. simpl.
  by rewrite <- !app_assoc.
Qed.

Lemma attempt_returns w st p st' :
  attempt w st = inr (Return p, st') →
  p = candidate w (attempts st) ∧ bind w (attempts st) p = None ∧
  events st' = events st ++ [EvSocket (attempts st); EvBind (attempts st) p true;
                             EvClose (attempts st)].
Proof.
  unfold attempt.
  destruct (bind w (attempts st) (candidate w (attempts st))) as [e|] eqn:Hb.
  - destruct (is_OSError e); discriminate.
  - intros [= <- <-]. simpl. by rewrite <- !app_assoc.
Qed.

Lemma bind_attempts_app evs evs' :
  bind_attempts (evs ++ evs') = (bind_attempts evs + bind_attempts evs')%nat.
Proof. unfold bind_attempts. by rewrite filter_app, length_app. Qed.

(** After [n] failing attempts and a successful one the loop has returned,
    whatever fuel above [n] it was given. *)
Lemma find_available_port_after n : ∀ w st fuel,
  (∀ i, (i < n)%nat → bind_fails w (attempts st + i)) →
  bind w (attempts st + n) (candidate w (attempts st + n)) = None →
  (n < fuel)%nat →
  ∃ st', find_available_port fuel w st
           = Some (Return (candidate w (attempts st + n)), st')
         ∧ attempts st' = S (attempts st + n)
         ∧ bind_attempts (events st') = S (bind_attempts (events st) + n).
Proof.
  induction n as [|n IH]; intros w st fuel Hfail Hok Hfuel.
  - destruct fuel as [|fuel]; [lia|]. simpl.
    rewrite Nat.add_0_r in *. rewrite (attempt_bound _ _ Hok).
    eexists; split; [reflexivity|]. simpl. split; [done|].
    rewrite bind_attempts_app. unfold bind_attempts. simpl. lia.
  - destruct fuel as [|fuel]; [lia|]. simpl.
    assert (Hf0 : bind_fails w (attempts st)).
    { specialize (Hfail 0%nat ltac:(lia)). by rewrite Nat.add_0_r in Hfail. }
    rewrite (attempt_retry _ _ Hf0).
    set (st1 := Proc _ _).
    destruct (IH w st1 fuel) as (st' & Hrun & Hatt & Hbind).
    + intros i Hi. subst st1. cbn [attempts].
      replace (S (attempts st) + i)%nat with (attempts st + S i)%nat by lia.
      apply Hfail. lia.
    + subst st1. cbn [attempts].
      by replace (S (attempts st) + n)%nat with (attempts st + S n)%nat by lia.
    + lia.
    + subst st1. cbn [attempts events] in *.
      replace (S (attempts st) + n)%nat with (attempts st + S n)%nat in * by lia.
      exists st'. split; [done|]. split; [lia|].
      rewrite Hbind, bind_attempts_app. unfold bind_attempts. simpl. lia.
Qed.

Lemma busy_until_randint_ok n : randint_ok (busy_until n).
Proof.
  intros k a b Hab. simpl.
  pose proof (Z.mod_pos_bound (Z.of_nat k * 7919) (b - a + 1) ltac:(lia)). lia.
Defined.

(** C1: whenever [find_available_port] returns, the port lies between 8000
    and 73535 (8000 plus a draw from 0..65535), and the log ends with the
    probe socket of that attempt being created, bound to the port and
    closed: the close comes before the return. *)
Theorem find_available_port_range_closed w fuel st p st' :
  randint_ok w →
  find_available_port fuel w st = Some (Return p, st') →
  8000 ≤ p ≤ 73535 ∧
  ∃ k pre, p = candidate w k ∧ bind w k p = None ∧
           events st' = pre ++ [EvSocket k; EvBind k p true; EvClose k].
Proof.
  intros Hr. revert st.
  induction fuel as [|fuel IH]; intros st Hrun; [discriminate|].
  simpl in Hrun. destruct (attempt w st) as [st1|[r st1]] eqn:Hat.
  - by apply (IH st1).
  - injection Hrun as -> ->.
    apply attempt_returns in Hat as (-> & Hb & Hev).
    split; [by apply candidate_range|]. eauto.
Qed.

Lemma find_available_port_range_closed_witness :
  8000 ≤ 23838 ≤ 73535 ∧
  ∃ k pre, 23838 = candidate (busy_until 2) k ∧ bind (busy_until 2) k 23838 = None ∧
           events (Proc 3 [EvSocket 0; EvBind 0 8000 false;
                           EvSocket 1; EvBind 1 15919 false;
                           EvSocket 2; EvBind 2 23838 true; EvClose 2])
           = pre ++ [EvSocket k; EvBind k 23838 true; EvClose k].
Proof.
  apply (find_available_port_range_closed (busy_until 2) 5 init).
  - apply busy_until_randint_ok.
  - reflexivity.
Defined.

(** C2: if the first N-1 bind attempts end in a socket error and the N-th
    succeeds (N >= 1), then [find_available_port], given room for N passes,
    returns the candidate of the N-th attempt after exactly N binds. *)
Theorem find_available_port_nth_attempt w N fuel :
  (1 ≤ N)%nat →
  (∀ i, (i < N - 1)%nat → bind_fails w i) →
  bind w (N - 1) (candidate w (N - 1)) = None →
  (N ≤ fuel)%nat →
  ∃ st', find_available_port fuel w init = Some (Return (candidate w (N - 1)), st')
         ∧ bind_attempts (events st') = N
         ∧ attempts st' = N.
Proof.
  intros HN Hfail Hok Hfuel.
  destruct (find_available_port_after (N - 1) w init fuel) as (st' & Hrun & Hatt & Hb);
    simpl; try done; try lia.
  simpl in *. exists st'. split; [done|].
  unfold bind_attempts in *. simpl in Hb. lia.
Qed.

Lemma find_available_port_nth_attempt_witness :
  ∃ st', find_available_port 7 (busy_until 3) init
           = Some (Return (candidate (busy_until 3) (4 - 1)), st')
         ∧ bind_attempts (events st') = 4%nat
         ∧ attempts st' = 4%nat.
Proof.
  apply (find_available_port_nth_attempt (busy_until 3) 4 7).
  - lia.
  - intros i Hi. exists (OSError (Some 98)). simpl.
    destruct (Nat.ltb_spec i 3); [done | lia].
  - reflexivity.
  - lia.
Defined.

(** C9: the loop has no attempt limit.  If every bind attempt ends in a
    socket error, no amount of fuel makes [find_available_port] return (or
    raise): it is still looping.  And it only ever returns after some
    attempt's bind succeeded. *)
Theorem find_available_port_unbounded w :
  ((∀ k, bind_fails w k) → ∀ fuel st, find_available_port fuel w st = None)
  ∧ (∀ fuel st p st',
       find_available_port fuel w st = Some (Return p, st') →
       ∃ k, bind w k (candidate w k) = None).
Proof.
  split.
  - intros Hfail fuel.
    induction fuel as [|fuel IH]; intros st; [done|].
    simpl. rewrite (attempt_retry _ _ (Hfail (attempts st))). apply IH.
  - intros fuel.
    induction fuel as [|fuel IH]; intros st p st' Hrun; [discriminate|].
    simpl in Hrun. destruct (attempt w st) as [st1|[r st1]] eqn:Hat.
    + by apply (IH st1 p st').
    + injection Hrun as -> ->.
      apply attempt_returns in Hat as (-> & Hb & _). eauto.
Qed.

Lemma find_available_port_unbounded_witness :
  find_available_port 500 always_busy init = None.
Proof.
  apply (proj1 (find_available_port_unbounded always_busy)).
  intros k. exists (OSError (Some 98)). split; reflexivity.
Defined.

(** C3: when the probe has found a port and the server start raises an
    OSError, [run_server] exits with status 1 after one line on stderr if
    the errno is 98, and otherwise lets the same error through uncaught
    with nothing printed. *)
Theorem run_server_start_failure w fuel p st1 errno :
  find_available_port fuel w init = Some (Return p, st1) →
  uvicorn_run w p = Some (OSError errno) →
  (errno = Some 98 →
     run_server fuel w init
       = Some (Raise (SystemExit 1),
               Proc (attempts st1)
                    (events st1 ++ [EvServe p; EvStderr "Unable to choose a free port."]))
     ∧ script fuel w
       = Some (Exit 1, events st1 ++ [EvServe p; EvStderr "Unable to choose a free port."]))
  ∧ (errno ≠ Some 98 →
     run_server fuel w init
       = Some (Raise (OSError errno), Proc (attempts st1) (events st1 ++ [EvServe p]))
     ∧ script fuel w = Some (Traceback (OSError errno), events st1 ++ [EvServe p])).
Proof.
  intros Hport Hrun.
  split; intros Herr.
  - subst errno.
    unfold script, run_server. rewrite Hport. cbn [emit events attempts].
    rewrite Hrun. unfold try_except_OSError, on_OSError, emit. simpl.
    by rewrite <- !app_assoc.
  - assert (Hno : errno_is (OSError errno) 98 = false).
    { destruct errno as [n|]; [|done]. simpl.
      apply Z.eqb_neq. by intros ->. }
    unfold script, run_server. rewrite Hport. cbn [emit events attempts].
    rewrite Hrun. unfold try_except_OSError, on_OSError.
    cbn [is_OSError]. by rewrite Hno.
Qed.

Lemma run_server_start_failure_witness :
  script 1 (lost_race (Some 98))
    = Some (Exit 1, [EvSocket 0; EvBind 0 8080 true; EvClose 0; EvServe 8080;
                     EvStderr "Unable to choose a free port."])
  ∧ script 1 (lost_race (Some 13))
    = Some (Traceback (OSError (Some 13)),
            [EvSocket 0; EvBind 0 8080 true; EvClose 0; EvServe 8080]).
Proof.
  split.
  - apply (run_server_start_failure (lost_race (Some 98)) 1 8080
             (Proc 1 [EvSocket 0; EvBind 0 8080 true; EvClose 0]) (Some 98));
      reflexivity.
  - apply (run_server_start_failure (lost_race (Some 13)) 1 8080
             (Proc 1 [EvSocket 0; EvBind 0 8080 true; EvClose 0]) (Some 13));
      [reflexivity | reflexivity | discriminate].
Defined.

End ServeFacts.

(** * Properties of shyLLM.py *)

Section ShyLLMFacts.
Import ShyLLM.

Lemma truthy_str s : truthy (VStr s) = true ↔ s ≠ "".
Proof.
  simpl. destruct (String.eqb_spec s ""); simpl; split; congruence.
Qed.

Lemma unauthorized_spec E api_key :
  unauthorized E api_key = true ↔
  api_key ≠ "" ∧ API_KEY (environ E) ≠ Some api_key.
Proof.
  unfold unauthorized. rewrite andb_true_iff, truthy_str, negb_true_iff.
  rewrite bool_decide_eq_false. tauto.
Qed.

(** What the [try] statement can end in: a value, the 500 response, or an
    exception outside [Exception], which it does not catch. *)
Lemma try_generation_cases E query st :
  (∃ d, (try_generation E query st).1 = Return d)
  ∨ (try_generation E query st).1 = Raise generation_error
  ∨ (∃ e, (try_generation E query st).1 = Raise e ∧ is_Exception e = false).
Proof.
  unfold try_generation, try_except.
  destruct (generation E query st) as [[d|e] st'] eqn:Hg; simpl.
  - left. eauto.
  - destruct (is_Exception e) eqn:He; simpl; [right; left | right; right; eauto].
    reflexivity.
Qed.

Lemma try_generation_not_401 E query st :
  (try_generation E query st).1 ≠ Raise unauthorized_error.
Proof.
  destruct (try_generation_cases E query st) as [[d Hd]|[Hd|(e & Hd & He)]];
    rewrite Hd; try discriminate.
  intros [= ->]. discriminate.
Qed.

(** C5: [generate_text] answers 401 exactly when the supplied [api_key]
    is a non-empty string different from the configured [API_KEY].  Hence
    an empty (or omitted, which is the default [""]) credential goes on
    to generation whatever the configuration, also with a secret set, and
    without a configured secret every non-empty credential gets 401. *)
Theorem generate_text_401_iff E query api_key st :
  ((generate_text E query api_key st).1 = Raise unauthorized_error
   ↔ api_key ≠ "" ∧ API_KEY (environ E) ≠ Some api_key)
  ∧ (api_key = "" →
     generate_text E query api_key st = try_generation E query st
     ∧ (generate_text E query api_key st).1 ≠ Raise unauthorized_error)
  ∧ (API_KEY (environ E) = None → api_key ≠ "" →
     generate_text E query api_key st = (Raise unauthorized_error, st)).
Proof.
  unfold generate_text.
  destruct (unauthorized E api_key) eqn:Hu.
  - apply unauthorized_spec in Hu as [Hne Hkey].
    split; [done|]. split; [done|]. done.
  - assert (Hn : ¬ (api_key ≠ "" ∧ API_KEY (environ E) ≠ Some api_key)).
    { rewrite <- unauthorized_spec. by rewrite Hu. }
    pose proof (try_generation_not_401 E query st) as H401.
    split; [|split].
    + split; [done | by intros ?].
    + done.
    + intros Hnone Hne. destruct Hn. split; [done|]. by rewrite Hnone.
Qed.

Lemma generate_text_401_iff_witness :
  (generate_text (hub {[ "SHYLLM_API_KEY" := "s3cret" ]} hello) (ask "hi") "" init
     = try_generation (hub {[ "SHYLLM_API_KEY" := "s3cret" ]} hello) (ask "hi") init
   ∧ (generate_text (hub {[ "SHYLLM_API_KEY" := "s3cret" ]} hello) (ask "hi") "" init).1
     ≠ Raise unauthorized_error)
  ∧ generate_text (hub ∅ hello) (ask "hi") "guess" init = (Raise unauthorized_error, init).
Proof.
  split.
  - apply (generate_text_401_iff (hub {[ "SHYLLM_API_KEY" := "s3cret" ]} hello)
             (ask "hi") "" init).
    reflexivity.
  - apply (generate_text_401_iff (hub ∅ hello) (ask "hi") "guess" init).
    + reflexivity.
    + discriminate.
Defined.

(** C4 as the spec words it fails: with the secret "s3cret" configured, a
    request whose credential is the empty string (supplied as [?api_key=],
    which the handler cannot tell from an omitted one) does not match the
    secret and is still answered with the generated text, not with 401. *)
Lemma empty_credential_passes_secret :
  API_KEY (environ (hub {[ "SHYLLM_API_KEY" := "s3cret" ]} hello)) = Some "s3cret"
  ∧ "" ≠ "s3cret"
  ∧ (serve (hub {[ "SHYLLM_API_KEY" := "s3cret" ]} hello)
           (PostGenerate {[ "prompt" := VStr "hi" ]} (Some "")) init).1
    = Handled (Return (<["prompt" := VStr "hi"]> {[ "response" := VStr "Hello" ]}))
  ∧ (generate_text (hub {[ "SHYLLM_API_KEY" := "s3cret" ]} hello) (ask "hi") "" init).1
    ≠ Raise unauthorized_error.
Proof.
  split; [reflexivity|]. split; [discriminate|]. split.
  - vm_compute. reflexivity.
  - vm_compute. discriminate.
Qed.

(** C4, amended: a credential that is non-empty and differs from the
    configured secret is answered with 401, before anything is loaded or
    generated; and with no secret configured and no credential supplied the
    request is authorized and runs the generation [try] statement, which
    never answers 401. *)
Theorem generate_text_credentials E query api_key st :
  (api_key ≠ "" → API_KEY (environ E) ≠ Some api_key →
     generate_text E query api_key st = (Raise unauthorized_error, st))
  ∧ (API_KEY (environ E) = None → api_key = "" →
     generate_text E query api_key st = try_generation E query st
     ∧ (generate_text E query api_key st).1 ≠ Raise unauthorized_error).
Proof.
  split.
  - intros Hne Hkey. unfold generate_text.
    by rewrite (proj2 (unauthorized_spec E api_key) (conj Hne Hkey)).
  - intros _ ->. unfold generate_text, unauthorized. simpl.
    split; [done|]. apply try_generation_not_401.
Qed.

Lemma generate_text_credentials_witness :
  generate_text (hub {[ "SHYLLM_API_KEY" := "s3cret" ]} hello) (ask "hi") "guess" init
    = (Raise unauthorized_error, init)
  ∧ (generate_text (hub ∅ hello) (ask "hi") "" init
       = try_generation (hub ∅ hello) (ask "hi") init
     ∧ (generate_text (hub ∅ hello) (ask "hi") "" init).1 ≠ Raise unauthorized_error).
Proof.
  split.
  - apply (generate_text_credentials (hub {[ "SHYLLM_API_KEY" := "s3cret" ]} hello)
             (ask "hi") "guess" init).
    + discriminate.
    + vm_compute. discriminate.
  - apply (generate_text_credentials (hub ∅ hello) (ask "hi") "" init); reflexivity.
Defined.

(** Validators. *)
Lemma prompt_not_empty_empty :
  ∃ e, prompt_not_empty (VStr "") = Raise e.
Proof. eexists. reflexivity. Qed.

Lemma validate_max_length_accepts v r :
  validate_max_length v = Return r ↔
  r = v ∧ isinstance_int v = true ∧ le_zero v = false.
Proof.
  unfold validate_max_length.
  destruct (isinstance_int v), (le_zero v); simpl; split;
    try (intros [= ->]; done); try (intros (-> & ? & ?); done).
Qed.

Lemma validate_max_length_nonpositive n :
  n ≤ 0 → ∃ e, validate_max_length (VInt n) = Raise e.
Proof.
  intros Hn. unfold validate_max_length. simpl.
  rewrite (proj2 (Z.leb_le n 0) Hn). eexists. reflexivity.
Qed.

Lemma all_space_lstrip s : all_space s = true → lstrip s = "".
Proof.
  induction s as [|c s IH]; simpl; [done|].
  intros [Hc Hs]%andb_true_iff. by rewrite Hc, IH.
Qed.

Lemma all_space_strip s : all_space s = true → strip s = "".
Proof. intros Hs. unfold strip. by rewrite all_space_lstrip. Qed.

Lemma field_present body name dflt core validator raw :
  body !! name = Some raw →
  field body name dflt core validator
    = match core raw with
      | Some v => validator v
      | None => Raise (ValidationError [TypeError name])
      end.
Proof. intros Hb. unfold field. by rewrite Hb. Qed.

Lemma field_absent body name d core validator :
  body !! name = None →
  field body name (Some d) core validator = Return d.
Proof. intros Hb. unfold field. by rewrite Hb. Qed.

(** C6 as worded fails where the schema reads a positive integer out of
    a max_length that is none: under the lax reading the string "5" and the
    boolean true are taken as 5 and 1, the query is built, the handler runs
    and the pipeline is called with that max_length. *)
Lemma coerced_max_length_reaches_pipeline :
  @serve lax (hub ∅ hello)
         (PostGenerate (<["max_length" := VStr "5"]> {[ "prompt" := VStr "hi" ]}) None) init
  = (Handled (Return (<["prompt" := VStr "hi"]> {[ "response" := VStr "Hello" ]})),
     State [("Qwen/Qwen2.5-Coder-7B-Instruct", loaded "Qwen/Qwen2.5-Coder-7B-Instruct" 0)]
           1
           [Invoke (loaded "Qwen/Qwen2.5-Coder-7B-Instruct" 0)
                   (VStr "hi") (VInt 5) (VFloat 1) (VFloat (95 # 100))]
           [])
  ∧ @serve lax (hub ∅ hello)
           (PostGenerate (<["max_length" := VBool true]> {[ "prompt" := VStr "hi" ]}) None)
           init
  = (Handled (Return (<["prompt" := VStr "hi"]> {[ "response" := VStr "Hello" ]})),
     State [("Qwen/Qwen2.5-Coder-7B-Instruct", loaded "Qwen/Qwen2.5-Coder-7B-Instruct" 0)]
           1
           [Invoke (loaded "Qwen/Qwen2.5-Coder-7B-Instruct" 0)
                   (VStr "hi") (VInt 1) (VFloat 1) (VFloat (95 # 100))]
           []).
Proof. split; vm_compute; reflexivity. Qed.

(** C6, amended: a body whose prompt is the empty string, or whose
    max_length the schema does not read as a positive integer (it makes no
    integer of it, or one that is zero or negative), does not get a
    [Query]: building it raises, the handler is not called and the state,
    with its record of pipeline calls and its count of model loads, is as
    before. *)
Theorem invalid_query_rejected `{CoreSchema} E body api_key st :
  (body !! "prompt" = Some (VStr "")
   ∨ ∃ v, body !! "max_length" = Some v ∧ ∀ n, as_int v = Some n → n ≤ 0) →
  ∃ e, serve E (PostGenerate body api_key) st = (Rejected e, st)
       ∧ invocations (serve E (PostGenerate body api_key) st).2 = invocations st
       ∧ loads (serve E (PostGenerate body api_key) st).2 = loads st.
Proof.
  intros Hbad.
  assert (Hq : ∃ e, Query_init body = Raise e).
  { unfold Query_init.
    destruct Hbad as [Hp | (v & Hv & Hint)].
    - rewrite (field_present _ "prompt" _ _ _ _ Hp), as_str_str. simpl. eauto.
    - destruct (field body "prompt" None _ prompt_not_empty) as [p|e]; simpl; [|eauto].
      rewrite (field_present _ "max_length" _ _ _ _ Hv).
      destruct (as_int v) as [n|] eqn:Hn; simpl; [|eauto].
      destruct (validate_max_length_nonpositive n (Hint n eq_refl)) as [e He].
      rewrite He. simpl. eauto. }
  destruct Hq as [e He]. exists e. simpl. by rewrite He.
Qed.

Lemma invalid_query_rejected_witness :
  (∃ e, serve (hub ∅ hello) (PostGenerate {[ "prompt" := VStr "" ]} None) init
          = (Rejected e, init)
        ∧ invocations (serve (hub ∅ hello)
                         (PostGenerate {[ "prompt" := VStr "" ]} None) init).2
          = invocations init
        ∧ loads (serve (hub ∅ hello)
                   (PostGenerate {[ "prompt" := VStr "" ]} None) init).2 = loads init)
  ∧ (∃ e, serve (hub ∅ hello)
            (PostGenerate (<["max_length" := VInt 0]> {[ "prompt" := VStr "hi" ]}) None) init
          = (Rejected e, init)
        ∧ invocations (serve (hub ∅ hello)
            (PostGenerate (<["max_length" := VInt 0]> {[ "prompt" := VStr "hi" ]}) None)
            init).2 = invocations init
        ∧ loads (serve (hub ∅ hello)
            (PostGenerate (<["max_length" := VInt 0]> {[ "prompt" := VStr "hi" ]}) None)
            init).2 = loads init).
Proof.
  split.
  - apply (invalid_query_rejected (hub ∅ hello) {[ "prompt" := VStr "" ]} None init).
    left. reflexivity.
  - apply (invalid_query_rejected (hub ∅ hello)
             (<["max_length" := VInt 0]> {[ "prompt" := VStr "hi" ]}) None init).
    right. exists (VInt 0). split; [reflexivity|].
    intros n [= <-]. lia.
Defined.

(** Loading, from the cache or not, leaves the record of pipeline calls alone. *)
Lemma load_model_body_invocations E name st :
  invocations (load_model_body E name st).2 = invocations st.
Proof.
  unfold load_model_body, try_except, lift, raise, logger_exception.
  unfold mbind, mret, M_bind, M_ret, bind, ret. simpl.
  destruct (tokenizer_from_pretrained E (loads st) name) as [tk|e]; simpl.
  - destruct (model_from_pretrained E (loads st) name) as [md|e]; simpl.
    + destruct (pipeline_new E (loads st) _ md tk) as [e|]; simpl; [|done].
      by destruct (is_Exception e).
    + by destruct (is_Exception e).
  - by destruct (is_Exception e).
Qed.

Lemma load_model_invocations E name st :
  invocations (load_model E name st).2 = invocations st.
Proof.
  unfold load_model, lru_cache.
  destruct (lru_find name (cache st)); [done|].
  pose proof (load_model_body_invocations E name st) as Hb.
  by destruct (load_model_body E name st) as [[p|e] st'].
Qed.

(** Once the model is loaded the [try] statement calls the pipeline with
    the fields of the query, whatever happens next. *)
Lemma try_generation_invokes E query st llm st1 :
  load_model E (MODEL_NAME (environ E)) st = (Return llm, st1) →
  invocations (try_generation E query st).2
    = invocations st
      ++ [Invoke llm (prompt query) (max_length query) (temperature query) (top_p query)].
Proof.
  intros Hload.
  pose proof (load_model_invocations E (MODEL_NAME (environ E)) st) as Hinv.
  rewrite Hload in Hinv. simpl in Hinv. rewrite <- Hinv.
  unfold try_generation, try_except, generation, call_pipeline, on_generation_error.
  unfold lift, raise, logger_exception.
  unfold mbind, mret, M_bind, M_ret, bind, ret. rewrite Hload.
  destruct (generate E _ _) as [output|e]; simpl.
  - destruct output as [|first output]; simpl; [done|].
    unfold getitem. by destruct (first !! "generated_text").
  - by destruct (is_Exception e).
Qed.

(** C7: a prompt that is not empty but all whitespace passes
    [prompt_not_empty], which tests the value before stripping it, and
    comes out as the empty string; a request with such a prompt, once the
    model is loaded, calls the pipeline with the prompt [""]. *)
Theorem whitespace_prompt_reaches_pipeline `{CoreSchema} s :
  s ≠ "" → all_space s = true →
  prompt_not_empty (VStr s) = Return (VStr "")
  ∧ ∀ E st llm st1,
      load_model E (MODEL_NAME (environ E)) st = (Return llm, st1) →
      invocations (serve E (PostGenerate {[ "prompt" := VStr s ]} None) st).2
        = invocations st ++ [Invoke llm (VStr "") (VInt 100) (VFloat 1) (VFloat (95 # 100))].
Proof.
  intros Hne Hws.
  assert (Hv : prompt_not_empty (VStr s) = Return (VStr "")).
  { unfold prompt_not_empty.
    rewrite (proj2 (truthy_str s) Hne). simpl. by rewrite all_space_strip. }
  split; [done|].
  intros E st llm st1 Hload.
  assert (Hq : Query_init {[ "prompt" := VStr s ]} = Return (ask "")).
  { unfold Query_init.
    rewrite (field_present _ "prompt" _ _ _ (VStr s)) by apply lookup_singleton_eq.
    rewrite as_str_str. simpl. rewrite Hv. simpl.
    rewrite !field_absent by (by apply lookup_singleton_ne).
    reflexivity. }
  unfold serve. rewrite Hq. unfold handled.
  destruct (generate_text E (ask "") (default "" None) st) as [r st'] eqn:Hg.
  simpl. replace st' with (generate_text E (ask "") (default "" None) st).2
    by (by rewrite Hg).
  unfold generate_text, unauthorized. simpl.
  by rewrite (try_generation_invokes E (ask "") st llm st1 Hload).
Qed.

Lemma whitespace_prompt_reaches_pipeline_witness :
  prompt_not_empty (VStr "  ") = Return (VStr "")
  ∧ invocations (serve (hub ∅ hello) (PostGenerate {[ "prompt" := VStr "  " ]} None) init).2
    = invocations init
      ++ [Invoke (loaded "Qwen/Qwen2.5-Coder-7B-Instruct" 0)
                 (VStr "") (VInt 100) (VFloat 1) (VFloat (95 # 100))].
Proof.
  destruct (whitespace_prompt_reaches_pipeline "  ") as [Hv Hcall].
  - discriminate.
  - reflexivity.
  - split; [exact Hv|].
    apply (Hcall (hub ∅ hello) init (loaded "Qwen/Qwen2.5-Coder-7B-Instruct" 0)
             (State [("Qwen/Qwen2.5-Coder-7B-Instruct",
                      loaded "Qwen/Qwen2.5-Coder-7B-Instruct" 0)] 1 [] [])).
    reflexivity.
Defined.

(** C8: whatever exception the generation [try] suite raises (from the
    pipeline call, the load, or reading the output), the handler answers
    with the same error, status 500 and detail "Failed to generate text.":
    two failing requests get equal responses, so the response does not
    depend on the fault. *)
Theorem generation_failure_uniform E1 E2 q1 q2 k1 k2 st1 st2 e1 e2 st1' st2' :
  unauthorized E1 k1 = false → unauthorized E2 k2 = false →
  generation E1 q1 st1 = (Raise e1, st1') → is_Exception e1 = true →
  generation E2 q2 st2 = (Raise e2, st2') → is_Exception e2 = true →
  (generate_text E1 q1 k1 st1).1 = Raise (HTTPException 500 "Failed to generate text.")
  ∧ (generate_text E1 q1 k1 st1).1 = (generate_text E2 q2 k2 st2).1.
Proof.
  intros Hk1 Hk2 Hg1 He1 Hg2 He2.
  unfold generate_text, try_generation, try_except.
  rewrite Hk1, Hk2, Hg1, Hg2, He1, He2. done.
Qed.

Lemma generation_failure_uniform_witness :
  (generate_text (hub ∅ (Raise (RuntimeError "CUDA out of memory"))) (ask "hi") "" init).1
    = Raise (HTTPException 500 "Failed to generate text.")
  ∧ (generate_text (hub ∅ (Raise (RuntimeError "CUDA out of memory"))) (ask "hi") "" init).1
    = (generate_text (hub {[ "SHYLLM_API_KEY" := "s3cret" ]} (Return []))
         (ask "bye") "s3cret" init).1.
Proof.
  eapply (generation_failure_uniform
            (hub ∅ (Raise (RuntimeError "CUDA out of memory")))
            (hub {[ "SHYLLM_API_KEY" := "s3cret" ]} (Return []))
            (ask "hi") (ask "bye") "" "s3cret" init init
            (RuntimeError "CUDA out of memory") IndexError);
    reflexivity.
Defined.

(** ** The model cache *)

Lemma load_model_body_cache E name st :
  cache (load_model_body E name st).2 = cache st.
Proof.
  unfold load_model_body, try_except, lift, raise, logger_exception.
  unfold mbind, mret, M_bind, M_ret, bind, ret. simpl.
  destruct (tokenizer_from_pretrained E (loads st) name) as [tk|e]; simpl.
  - destruct (model_from_pretrained E (loads st) name) as [md|e]; simpl.
    + destruct (pipeline_new E (loads st) _ md tk) as [e|]; simpl; [|done].
      by destruct (is_Exception e).
    + by destruct (is_Exception e).
  - by destruct (is_Exception e).
Qed.

(** A hit: the stored object comes back and nothing else happens. *)
Lemma load_model_cached E m p st :
  cache st = [(m, p)] → load_model E m st = (Return p, st).
Proof.
  intros Hc. unfold load_model, lru_cache. rewrite Hc. simpl.
  rewrite decide_True by done. unfold set_cache. simpl.
  rewrite decide_True by done. destruct st; simpl in *. by subst.
Qed.

(** A miss: the body runs; its result is stored only if it returned. *)
Lemma load_model_fresh E name st :
  lru_find name (cache st) = None →
  load_model E name st
    = match load_model_body E name st with
      | (Return v, st') => (Return v, set_cache [(name, v)] st')
      | (Raise e, st') => (Raise e, st')
      end.
Proof.
  intros Hm. unfold load_model, lru_cache. rewrite Hm.
  by destruct (load_model_body E name st) as [[v|e] st'].
Qed.

Lemma load_model_returns E m p st st1 :
  (length (cache st) ≤ 1)%nat →
  load_model E m st = (Return p, st1) →
  cache st1 = [(m, p)].
Proof.
  intros Hlen. unfold load_model, lru_cache.
  destruct (lru_find m (cache st)) as [v|] eqn:Hf.
  - intros [= <- <-]. simpl.
    destruct (cache st) as [|[k v'] [|? ?]]; simpl in *; [done| |lia].
    destruct (decide (k = m)); [done|discriminate].
  - destruct (load_model_body E m st) as [[v|e] st'].
    + by intros [= <- <-].
    + discriminate.
Qed.

Lemma load_model_at_most_one E name st :
  (length (cache st) ≤ 1)%nat →
  (length (cache (load_model E name st).2) ≤ 1)%nat.
Proof.
  intros Hlen.
  destruct (load_model E name st) as [[p|e] st1] eqn:Hl.
  - simpl. by rewrite (load_model_returns _ _ _ _ _ Hlen Hl).
  - simpl. revert Hl. unfold load_model, lru_cache.
    destruct (lru_find name (cache st)); [discriminate|].
    pose proof (load_model_body_cache E name st) as Hc.
    destruct (load_model_body E name st) as [[v|e'] st']; [discriminate|].
    intros [= <- <-]. simpl in *. by rewrite Hc.
Qed.

Lemma load_all_at_most_one E names : ∀ st,
  (length (cache st) ≤ 1)%nat →
  (length (cache (load_all E names st)) ≤ 1)%nat.
Proof.
  induction names as [|name names IH]; intros st Hlen; simpl; [done|].
  by apply IH, load_model_at_most_one.
Qed.

(** A call for another name that raises leaves the slot as it was. *)
Lemma load_model_other_raises E m p name e st :
  cache st = [(m, p)] →
  (load_model E name st).1 = Raise e →
  cache (load_model E name st).2 = [(m, p)].
Proof.
  intros Hc. unfold load_model, lru_cache. rewrite Hc. simpl.
  destruct (decide (m = name)); [discriminate|].
  pose proof (load_model_body_cache E name st) as Hb.
  destruct (load_model_body E name st) as [[v|e'] st']; [discriminate|].
  intros _. simpl in *. by rewrite Hb.
Qed.

Lemma no_other_loaded_keeps E m p names : ∀ st,
  cache st = [(m, p)] →
  no_other_loaded E m names st →
  cache (load_all E names st) = [(m, p)].
Proof.
  induction names as [|name names IH]; intros st Hc Hq; simpl in *; [done|].
  destruct Hq as [[-> | [e He]] Hq].
  - rewrite (load_model_cached E m p st Hc) in *. by apply IH.
  - apply IH; [|done]. by eapply load_model_other_raises.
Qed.

(** Within the server every load is for [MODEL_NAME]: once the slot holds
    its pipeline, no request changes the slot or runs the load again. *)
Lemma serve_keeps_pipeline `{CoreSchema} E p req st :
  cache st = [(MODEL_NAME (environ E), p)] →
  cache (serve E req st).2 = [(MODEL_NAME (environ E), p)]
  ∧ loads (serve E req st).2 = loads st.
Proof.
  intros Hc. destruct req as [| |body key]; simpl; try done.
  destruct (Query_init body) as [query|e]; simpl; [|done].
  unfold handled, generate_text.
  destruct (unauthorized E (default "" key)); simpl; [done|].
  unfold try_generation, try_except, generation, call_pipeline, on_generation_error.
  unfold lift, raise, logger_exception.
  unfold mbind, mret, M_bind, M_ret, bind, ret.
  rewrite (load_model_cached E _ p st Hc).
  destruct (generate E _ _) as [output|e]; simpl.
  - destruct output as [|first output]; simpl; [done|].
    unfold getitem. by destruct (first !! "generated_text").
  - by destruct (is_Exception e).
Qed.

Lemma serve_all_keeps_pipeline `{CoreSchema} E p reqs : ∀ st,
  cache st = [(MODEL_NAME (environ E), p)] →
  cache (serve_all E reqs st) = [(MODEL_NAME (environ E), p)]
  ∧ loads (serve_all E reqs st) = loads st.
Proof.
  induction reqs as [|req reqs IH]; intros st Hc; simpl; [done|].
  destruct (serve_keeps_pipeline E p req st Hc) as [Hc' Hl'].
  destruct (IH _ Hc') as [Hc'' Hl'']. split; [done | congruence].
Qed.

(** C10 as worded fails: the slot is single, so a successful load of
    another name in between evicts the first pipeline.  After
    [load_model("a")], [load_model("b")], the call [load_model("a")] runs
    the load a third time and returns a new object. *)
Lemma load_model_other_name_evicts :
  load_model (hub ∅ hello) "a" init
    = (Return (loaded "a" 0), State [("a", loaded "a" 0)] 1 [] [])
  ∧ load_model (hub ∅ hello) "b" (State [("a", loaded "a" 0)] 1 [] [])
    = (Return (loaded "b" 1), State [("b", loaded "b" 1)] 2 [] [])
  ∧ load_model (hub ∅ hello) "a" (State [("b", loaded "b" 1)] 2 [] [])
    = (Return (loaded "a" 2), State [("a", loaded "a" 2)] 3 [] [])
  ∧ loaded "a" 2 ≠ loaded "a" 0.
Proof.
  split; [reflexivity|]. split; [reflexivity|]. split; [reflexivity|].
  discriminate.
Qed.

(** C10, amended: [load_model] is a single-slot memo.  From a state whose
    store holds at most one entry (as every state reached from the empty
    store does), after a successful call [load_model(m)] returning [p], a
    later call [load_model(m)]
    returns [p] and changes nothing (the body is not run again), as long
    as no call for another name has loaded a model in between; the store
    never holds more than one entry; and in the server, where every load
    is for [MODEL_NAME], no sequence of requests replaces the pipeline or
    runs the load again. *)
Theorem load_model_single_slot `{CoreSchema} E m p st st1 :
  (length (cache st) ≤ 1)%nat →
  load_model E m st = (Return p, st1) →
  (∀ names, no_other_loaded E m names st1 →
     load_model E m (load_all E names st1) = (Return p, load_all E names st1))
  ∧ (∀ names, (length (cache (load_all E names st)) ≤ 1)%nat)
  ∧ (m = MODEL_NAME (environ E) → ∀ reqs,
       load_model E m (serve_all E reqs st1) = (Return p, serve_all E reqs st1)
       ∧ loads (serve_all E reqs st1) = loads st1).
Proof.
  intros Hlen Hload.
  pose proof (load_model_returns E m p st st1 Hlen Hload) as Hc.
  split; [|split].
  - intros names Hq. apply load_model_cached.
    by apply no_other_loaded_keeps.
  - intros names. by apply load_all_at_most_one.
  - intros -> reqs.
    destruct (serve_all_keeps_pipeline E p reqs st1 Hc) as [Hc' Hl'].
    split; [by apply load_model_cached | done].
Qed.

Lemma load_model_single_slot_witness :
  load_model (hub {[ "MODEL_NAME" := "a" ]} hello) "a"
    (load_all (hub {[ "MODEL_NAME" := "a" ]} hello) ["a"; "a"]
       (State [("a", loaded "a" 0)] 1 [] []))
    = (Return (loaded "a" 0),
       load_all (hub {[ "MODEL_NAME" := "a" ]} hello) ["a"; "a"]
         (State [("a", loaded "a" 0)] 1 [] []))
  ∧ (length (cache (load_all (hub {[ "MODEL_NAME" := "a" ]} hello) ["a"; "b"; "c"] init))
       ≤ 1)%nat
  ∧ loads (serve_all (hub {[ "MODEL_NAME" := "a" ]} hello)
             [PostGenerate {[ "prompt" := VStr "hi" ]} None; GetHealth;
              PostGenerate {[ "prompt" := VStr "more" ]} None]
             (State [("a", loaded "a" 0)] 1 [] []))
    = loads (State [("a", loaded "a" 0)] 1 [] []).
Proof.
  destruct (load_model_single_slot (hub {[ "MODEL_NAME" := "a" ]} hello) "a"
              (loaded "a" 0) init (State [("a", loaded "a" 0)] 1 [] []))
    as (Hagain & Hsize & Hserve).
  - simpl. lia.
  - reflexivity.
  - split; [|split].
    + apply Hagain. simpl. tauto.
    + apply Hsize.
    + apply (Hserve eq_refl).
Defined.

End ShyLLMFacts.

(** * Further properties of serve.py *)

Section ServeLog.
Import Serve.

Lemma attempt_again w st st1 :
  attempt w st = inl st1 →
  bind_fails w (attempts st)
  ∧ st1 = Proc (S (attempts st))
               (events st ++ [EvSocket (attempts st);
                              EvBind (attempts st) (candidate w (attempts st)) false]).
Proof.
  unfold attempt.
  destruct (bind w (attempts st) (candidate w (attempts st))) as [e|] eqn:Hb; [|discriminate].
  destruct (is_OSError e) eqn:He; [|discriminate].
  intros [= <-]. split; [by exists e|].
  unfold emit, next_attempt. simpl. by rewrite <- !app_assoc.
Qed.

Lemma attempt_raises w st e st1 :
  attempt w st = inr (Raise e, st1) →
  bind w (attempts st) (candidate w (attempts st)) = Some e ∧ is_OSError e = false
  ∧ st1 = Proc (S (attempts st))
               (events st ++ [EvSocket (attempts st);
                              EvBind (attempts st) (candidate w (attempts st)) false]).
Proof.
  unfold attempt.
  destruct (bind w (attempts st) (candidate w (attempts st))) as [e'|] eqn:Hb; [|discriminate].
  destruct (is_OSError e') eqn:He; [discriminate|].
  intros [= <- <-]. split; [done|]. split; [done|].
  unfold emit, next_attempt. simpl. by rewrite <- !app_assoc.
Qed.

Lemma count_app test evs evs' :
  count test (evs ++ evs') = (count test evs + count test evs')%nat.
Proof. induction evs as [|ev evs IH]; simpl; [done|]. rewrite IH. lia. Qed.

Lemma failed_log_counts w n : ∀ k,
  count is_close (failed_log w k n) = 0%nat
  ∧ count is_socket (failed_log w k n) = n
  ∧ count is_bind (failed_log w k n) = n.
Proof.
  induction n as [|n IH]; intros k; [done|].
  destruct (IH (S k)) as (Hc & Hs & Hb).
  simpl. rewrite Hc, Hs, Hb. done.
Qed.

(** The complete log of a call that returns, from any state. *)
Lemma find_available_port_return_log w fuel : ∀ st p st',
  find_available_port fuel w st = Some (Return p, st') →
  ∃ n, (n < fuel)%nat
       ∧ (∀ i, (i < n)%nat → bind_fails w (attempts st + i))
       ∧ p = candidate w (attempts st + n)
       ∧ bind w (attempts st + n) p = None
       ∧ attempts st' = S (attempts st + n)
       ∧ events st' = events st ++ failed_log w (attempts st) n
                      ++ [EvSocket (attempts st + n); EvBind (attempts st + n) p true;
                          EvClose (attempts st + n)].
Proof.
  induction fuel as [|fuel IH]; intros st p st' Hrun; [discriminate|].
  simpl in Hrun. destruct (attempt w st) as [st1|[r st1]] eqn:Hat.
  - apply attempt_again in Hat as [Hf ->].
    apply IH in Hrun as (n & Hn & Hfail & Hp & Hb & Hatt & Hev).
    cbn [attempts events] in *.
    replace (S (attempts st) + n)%nat with (attempts st + S n)%nat in * by lia.
    exists (S n). split; [lia|]. split.
    { intros i Hi. destruct i as [|i]; [by rewrite Nat.add_0_r|].
      replace (attempts st + S i)%nat with (S (attempts st) + i)%nat by lia.
      apply Hfail. lia. }
    split; [done|]. split; [done|]. split; [done|].
    rewrite Hev. simpl. by rewrite <- !app_assoc.
  - injection Hrun as -> ->.
    pose proof (attempt_returns _ _ _ _ Hat) as (Hp & Hb & Hev).
    assert (Hatt : attempts st' = S (attempts st)).
    { rewrite (attempt_bound w st) in Hat by (by rewrite <- Hp). by injection Hat as _ <-. }
    exists 0%nat. rewrite Nat.add_0_r. split; [lia|]. split; [lia|]. done.
Qed.

(** X1: a call of [find_available_port] that returns has made n failing
    attempts, each ending in a socket error, and then the first attempt
    whose bind succeeds; its log is exactly a socket and a failed bind per
    failing attempt, then socket, bind and close of the last one.  So n+1
    sockets were created and only one was closed: the probes of failing
    attempts are never closed by the code. *)
Theorem find_available_port_first_success w fuel p st' :
  find_available_port fuel w init = Some (Return p, st') →
  ∃ n, (n < fuel)%nat
       ∧ (∀ i, (i < n)%nat → bind_fails w i)
       ∧ p = candidate w n ∧ bind w n p = None
       ∧ attempts st' = S n
       ∧ events st' = failed_log w 0 n ++ [EvSocket n; EvBind n p true; EvClose n]
       ∧ count is_socket (events st') = S n
       ∧ count is_close (events st') = 1%nat.
Proof.
  intros Hrun.
  apply find_available_port_return_log in Hrun as (n & Hn & Hfail & Hp & Hb & Hatt & Hev).
  simpl in *. exists n. do 5 (split; [done|]). split; [done|].
  destruct (failed_log_counts w n 0) as (Hc & Hs & _).
  rewrite Hev, !count_app, Hc, Hs. simpl. lia.
Qed.

Lemma find_available_port_first_success_witness :
  ∃ n, (n < 5)%nat
       ∧ (∀ i, (i < n)%nat → bind_fails (busy_until 2) i)
       ∧ 23838 = candidate (busy_until 2) n ∧ bind (busy_until 2) n 23838 = None
       ∧ attempts (Proc 3 [EvSocket 0; EvBind 0 8000 false;
                           EvSocket 1; EvBind 1 15919 false;
                           EvSocket 2; EvBind 2 23838 true; EvClose 2]) = S n
       ∧ events (Proc 3 [EvSocket 0; EvBind 0 8000 false;
                         EvSocket 1; EvBind 1 15919 false;
                         EvSocket 2; EvBind 2 23838 true; EvClose 2])
         = failed_log (busy_until 2) 0 n ++ [EvSocket n; EvBind n 23838 true; EvClose n]
       ∧ count is_socket (events (Proc 3 [EvSocket 0; EvBind 0 8000 false;
                         EvSocket 1; EvBind 1 15919 false;
                         EvSocket 2; EvBind 2 23838 true; EvClose 2])) = S n
       ∧ count is_close (events (Proc 3 [EvSocket 0; EvBind 0 8000 false;
                         EvSocket 1; EvBind 1 15919 false;
                         EvSocket 2; EvBind 2 23838 true; EvClose 2])) = 1%nat.
Proof.
  apply (find_available_port_first_success (busy_until 2) 5 23838). reflexivity.
Defined.

(** The complete log of a call that raises, from any state. *)
Lemma find_available_port_raise_log w fuel : ∀ st e st',
  find_available_port fuel w st = Some (Raise e, st') →
  ∃ n, (n < fuel)%nat
       ∧ (∀ i, (i < n)%nat → bind_fails w (attempts st + i))
       ∧ bind w (attempts st + n) (candidate w (attempts st + n)) = Some e
       ∧ is_OSError e = false
       ∧ events st' = events st ++ failed_log w (attempts st) n
                      ++ [EvSocket (attempts st + n);
                          EvBind (attempts st + n) (candidate w (attempts st + n)) false].
Proof.
  induction fuel as [|fuel IH]; intros st e st' Hrun; [discriminate|].
  simpl in Hrun. destruct (attempt w st) as [st1|[r st1]] eqn:Hat.
  - apply attempt_again in Hat as [Hf ->].
    apply IH in Hrun as (n & Hn & Hfail & Hb & He & Hev).
    cbn [attempts events] in *.
    replace (S (attempts st) + n)%nat with (attempts st + S n)%nat in * by lia.
    exists (S n). split; [lia|]. split.
    { intros i Hi. destruct i as [|i]; [by rewrite Nat.add_0_r|].
      replace (attempts st + S i)%nat with (S (attempts st) + i)%nat by lia.
      apply Hfail. lia. }
    split; [done|]. split; [done|].
    rewrite Hev. simpl. by rewrite <- !app_assoc.
  - injection Hrun as -> ->.
    apply attempt_raises in Hat as (Hb & He & ->).
    exists 0%nat. rewrite Nat.add_0_r. split; [lia|]. split; [lia|]. done.
Qed.

(** X2: [find_available_port] never raises a socket error (an OSError):
    those it swallows.  What it raises is the other exception of the first
    bind that did not end in a socket error, and the socket of that attempt
    is left unclosed too: the log holds no close at all. *)
Theorem find_available_port_raises_no_OSError w fuel e st' :
  find_available_port fuel w init = Some (Raise e, st') →
  is_OSError e = false
  ∧ ∃ n, (∀ i, (i < n)%nat → bind_fails w i)
         ∧ bind w n (candidate w n) = Some e
         ∧ events st' = failed_log w 0 n ++ [EvSocket n; EvBind n (candidate w n) false]
         ∧ count is_close (events st') = 0%nat.
Proof.
  intros Hrun.
  apply find_available_port_raise_log in Hrun as (n & Hn & Hfail & Hb & He & Hev).
  simpl in *. split; [done|]. exists n. do 3 (split; [done|]).
  destruct (failed_log_counts w n 0) as (Hc & _ & _).
  rewrite Hev, !count_app, Hc. done.
Qed.

Lemma find_available_port_raises_no_OSError_witness :
  is_OSError (OverflowError "bind(): port must be 0-65535.") = false
  ∧ ∃ n, (∀ i, (i < n)%nat → bind_fails out_of_range i)
         ∧ bind out_of_range n (candidate out_of_range n)
           = Some (OverflowError "bind(): port must be 0-65535.")
         ∧ events (Proc 1 [EvSocket 0; EvBind 0 73535 false])
           = failed_log out_of_range 0 n
             ++ [EvSocket n; EvBind n (candidate out_of_range n) false]
         ∧ count is_close (events (Proc 1 [EvSocket 0; EvBind 0 73535 false])) = 0%nat.
Proof.
  apply (find_available_port_raises_no_OSError out_of_range 3). reflexivity.
Defined.

Lemma probe_raise_not_OSError w fuel e st' :
  find_available_port fuel w init = Some (Raise e, st') → is_OSError e = false.
Proof.
  intros Hrun.
  by apply find_available_port_raise_log in Hrun as (n & _ & _ & _ & He & _).
Qed.

Lemma failed_log_probe w n : ∀ k, Forall (λ ev, is_probe ev = true) (failed_log w k n).
Proof.
  induction n as [|n IH]; intros k; simpl; [constructor|].
  repeat constructor. apply IH.
Qed.

(** The probe loop logs nothing but its own sockets, binds and closes. *)
Lemma find_available_port_probe_only w fuel r st' :
  find_available_port fuel w init = Some (r, st') →
  Forall (λ ev, is_probe ev = true) (events st').
Proof.
  destruct r as [p|e]; intros Hrun.
  - apply find_available_port_return_log in Hrun as (n & _ & _ & _ & _ & _ & ->).
    simpl. apply Forall_app. split; [apply failed_log_probe|]. by repeat constructor.
  - apply find_available_port_raise_log in Hrun as (n & _ & _ & _ & _ & ->).
    simpl. apply Forall_app. split; [apply failed_log_probe|]. by repeat constructor.
Qed.

Lemma probe_only_count test evs :
  Forall (λ ev, is_probe ev = true) evs →
  (∀ ev, is_probe ev = true → test ev = false) →
  count test evs = 0%nat.
Proof.
  intros Hall Ht. induction Hall as [|ev evs' Hev _ IH]; simpl; [done|].
  by rewrite (Ht ev Hev), IH.
Qed.

Lemma probe_only_not_in evs ev :
  Forall (λ ev, is_probe ev = true) evs → is_probe ev = false → ev ∉ evs.
Proof.
  intros Hall Hev Hin. rewrite Forall_forall in Hall.
  specialize (Hall ev Hin). congruence.
Qed.

(** The ways the script can end. *)
Lemma script_cases fuel w r evs :
  script fuel w = Some (r, evs) →
  (∃ e st1, find_available_port fuel w init = Some (Raise e, st1)
            ∧ r = end_of e ∧ evs = events st1)
  ∨ (∃ p st1, find_available_port fuel w init = Some (Return p, st1)
       ∧ ((uvicorn_run w p = None ∧ r = Exit 0
           ∧ evs = events st1 ++ [EvServe p; EvStdout p (now w 1 - now w 0)])
          ∨ (∃ e, uvicorn_run w p = Some e ∧ errno_is e 98 = true ∧ r = Exit 1
                  ∧ evs = events st1
                          ++ [EvServe p; EvStderr "Unable to choose a free port."])
          ∨ (∃ e, uvicorn_run w p = Some e ∧ errno_is e 98 = false ∧ r = end_of e
                  ∧ evs = events st1 ++ [EvServe p]))).
Proof.
  unfold script, run_server.
  destruct (find_available_port fuel w init) as [[[p|e] st1]|] eqn:Hrun; [| |discriminate].
  - intros Hs. right. exists p, st1. split; [done|].
    destruct (uvicorn_run w p) as [e|] eqn:Hu.
    + unfold try_except_OSError, on_OSError in Hs.
      destruct (errno_is e 98) eqn:H98.
      * right; left. exists e.
        assert (Hos : is_OSError e = true) by (by destruct e as [[?|]| | | | | | | | | | |]).
        rewrite Hos in Hs. injection Hs as <- <-.
        unfold emit. simpl. by rewrite <- app_assoc.
      * right; right. exists e.
        assert (Hs' : match e with
                      | SystemExit c => Some (Exit c, events (emit [EvServe p] st1))
                      | _ => Some (Traceback e, events (emit [EvServe p] st1))
                      end = Some (r, evs)).
        { by destruct (is_OSError e). }
        by destruct e; injection Hs' as <- <-.
    + left. injection Hs as <- <-. unfold emit. simpl. by rewrite <- app_assoc.
  - intros Hs. left. exists e, st1. split; [done|].
    pose proof (probe_raise_not_OSError _ _ _ _ Hrun) as He.
    unfold try_except_OSError in Hs. rewrite He in Hs.
    by destruct e; injection Hs as <- <-.
Qed.

(** X3: an exception that escapes the probe loop (so not a socket error)
    goes through [run_server] untouched: the server is never started,
    nothing is printed, and the script ends on that exception. *)
Theorem run_server_probe_failure w fuel e st1 :
  find_available_port fuel w init = Some (Raise e, st1) →
  run_server fuel w init = Some (Raise e, st1)
  ∧ script fuel w = Some (end_of e, events st1)
  ∧ count is_serve (events st1) = 0%nat
  ∧ count is_stdout (events st1) = 0%nat
  ∧ count is_stderr (events st1) = 0%nat.
Proof.
  intros Hrun.
  pose proof (probe_raise_not_OSError _ _ _ _ Hrun) as He.
  assert (Hr : run_server fuel w init = Some (Raise e, st1)).
  { unfold run_server. rewrite Hrun. unfold try_except_OSError. by rewrite He. }
  split; [done|]. split.
  { unfold script. rewrite Hr. by destruct e. }
  apply find_available_port_raise_log in Hrun as (n & _ & _ & _ & _ & ->).
  simpl. rewrite !count_app.
  rewrite !(probe_only_count _ _ (failed_log_probe w n 0));
    [done | by intros [] | by intros [] | by intros []].
Qed.

Lemma run_server_probe_failure_witness :
  run_server 3 out_of_range init
    = Some (Raise (OverflowError "bind(): port must be 0-65535."),
            Proc 1 [EvSocket 0; EvBind 0 73535 false])
  ∧ script 3 out_of_range
    = Some (end_of (OverflowError "bind(): port must be 0-65535."),
            events (Proc 1 [EvSocket 0; EvBind 0 73535 false]))
  ∧ count is_serve (events (Proc 1 [EvSocket 0; EvBind 0 73535 false])) = 0%nat
  ∧ count is_stdout (events (Proc 1 [EvSocket 0; EvBind 0 73535 false])) = 0%nat
  ∧ count is_stderr (events (Proc 1 [EvSocket 0; EvBind 0 73535 false])) = 0%nat.
Proof.
  apply (run_server_probe_failure out_of_range 3). reflexivity.
Defined.

(** X4: the start-up report reaches stdout only when [uvicorn.run] has
    returned normally, that is after the server stopped serving: a log with
    a report ends in the server call followed by that report, the report
    names the probed port and the time between the two clock readings, and
    the script exits with status 0. *)
Theorem startup_report_after_server_returns w fuel r evs port elapsed :
  script fuel w = Some (r, evs) →
  EvStdout port elapsed ∈ evs →
  ∃ st1, find_available_port fuel w init = Some (Return port, st1)
         ∧ uvicorn_run w port = None
         ∧ r = Exit 0
         ∧ elapsed = now w 1 - now w 0
         ∧ evs = events st1 ++ [EvServe port; EvStdout port elapsed].
Proof.
  intros Hs Hin.
  destruct (script_cases _ _ _ _ Hs)
    as [(e & st1 & Hrun & -> & ->)
       | (p & st1 & Hrun & [(Hu & -> & ->) | [(e & Hu & H98 & -> & ->) | (e & Hu & H98 & -> & ->)]])].
  - by destruct (probe_only_not_in _ (EvStdout port elapsed)
                   (find_available_port_probe_only _ _ _ _ Hrun) eq_refl).
  - pose proof (probe_only_not_in _ (EvStdout port elapsed)
                  (find_available_port_probe_only _ _ _ _ Hrun) eq_refl) as Hno.
    apply elem_of_app in Hin as [Hin|Hin]; [done|].
    apply elem_of_cons in Hin as [Hin|Hin]; [discriminate|].
    apply list_elem_of_singleton in Hin. injection Hin as -> ->.
    by exists st1.
  - pose proof (probe_only_not_in _ (EvStdout port elapsed)
                  (find_available_port_probe_only _ _ _ _ Hrun) eq_refl) as Hno.
    apply elem_of_app in Hin as [Hin|Hin]; [done|].
    apply elem_of_cons in Hin as [Hin|Hin]; [discriminate|].
    apply list_elem_of_singleton in Hin. discriminate.
  - pose proof (probe_only_not_in _ (EvStdout port elapsed)
                  (find_available_port_probe_only _ _ _ _ Hrun) eq_refl) as Hno.
    apply elem_of_app in Hin as [Hin|Hin]; [done|].
    apply list_elem_of_singleton in Hin. discriminate.
Qed.

Lemma startup_report_after_server_returns_witness :
  ∃ st1, find_available_port 4 (quiet_run 1) init = Some (Return 8001, st1)
         ∧ uvicorn_run (quiet_run 1) 8001 = None
         ∧ Exit 0 = Exit 0
         ∧ 2500000 = now (quiet_run 1) 1 - now (quiet_run 1) 0
         ∧ [EvSocket 0; EvBind 0 8000 false; EvSocket 1; EvBind 1 8001 true; EvClose 1;
            EvServe 8001; EvStdout 8001 2500000]
           = events st1 ++ [EvServe 8001; EvStdout 8001 2500000].
Proof.
  apply (startup_report_after_server_returns (quiet_run 1) 4 (Exit 0)).
  - reflexivity.
  - do 6 apply list_elem_of_further. apply list_elem_of_here.
Defined.

(** X5: the only line the script ever writes to stderr is "Unable to
    choose a free port.", and it is written only when the server call
    itself raised an OSError with errno 98; the script then exits with
    status 1. *)
Theorem stderr_only_for_address_in_use w fuel r evs line :
  script fuel w = Some (r, evs) →
  EvStderr line ∈ evs →
  line = "Unable to choose a free port."
  ∧ r = Exit 1
  ∧ ∃ p st1, find_available_port fuel w init = Some (Return p, st1)
             ∧ uvicorn_run w p = Some (OSError (Some 98))
             ∧ evs = events st1 ++ [EvServe p; EvStderr line].
Proof.
  intros Hs Hin.
  destruct (script_cases _ _ _ _ Hs)
    as [(e & st1 & Hrun & -> & ->)
       | (p & st1 & Hrun & [(Hu & -> & ->) | [(e & Hu & H98 & -> & ->) | (e & Hu & H98 & -> & ->)]])].
  - by destruct (probe_only_not_in _ (EvStderr line)
                   (find_available_port_probe_only _ _ _ _ Hrun) eq_refl).
  - pose proof (probe_only_not_in _ (EvStderr line)
                  (find_available_port_probe_only _ _ _ _ Hrun) eq_refl) as Hno.
    apply elem_of_app in Hin as [Hin|Hin]; [done|].
    apply elem_of_cons in Hin as [Hin|Hin]; [discriminate|].
    apply list_elem_of_singleton in Hin. discriminate.
  - pose proof (probe_only_not_in _ (EvStderr line)
                  (find_available_port_probe_only _ _ _ _ Hrun) eq_refl) as Hno.
    apply elem_of_app in Hin as [Hin|Hin]; [done|].
    apply elem_of_cons in Hin as [Hin|Hin]; [discriminate|].
    apply list_elem_of_singleton in Hin. injection Hin as ->.
    split; [done|]. split; [done|]. exists p, st1. split; [done|]. split; [|done].
    destruct e as [[k|]| | | | | | | | | | |]; try discriminate.
    simpl in H98. apply Z.eqb_eq in H98. by subst.
  - pose proof (probe_only_not_in _ (EvStderr line)
                  (find_available_port_probe_only _ _ _ _ Hrun) eq_refl) as Hno.
    apply elem_of_app in Hin as [Hin|Hin]; [done|].
    apply list_elem_of_singleton in Hin. discriminate.
Qed.

Lemma stderr_only_for_address_in_use_witness :
  "Unable to choose a free port." = "Unable to choose a free port."
  ∧ Exit 1 = Exit 1
  ∧ ∃ p st1, find_available_port 1 (lost_race (Some 98)) init = Some (Return p, st1)
             ∧ uvicorn_run (lost_race (Some 98)) p = Some (OSError (Some 98))
             ∧ [EvSocket 0; EvBind 0 8080 true; EvClose 0; EvServe 8080;
                EvStderr "Unable to choose a free port."]
               = events st1 ++ [EvServe p; EvStderr "Unable to choose a free port."].
Proof.
  apply (stderr_only_for_address_in_use (lost_race (Some 98)) 1 (Exit 1)).
  - reflexivity.
  - do 4 apply list_elem_of_further. apply list_elem_of_here.
Defined.

(** X6: the server is started at most once, and only on the port the
    probe has just bound and released: in the log the server call comes
    right after the close of the probe socket that was bound to that port,
    and nothing of the script keeps the port in between. *)
Theorem serve_only_probed_port w fuel r evs port :
  script fuel w = Some (r, evs) →
  EvServe port ∈ evs →
  count is_serve evs = 1%nat
  ∧ ∃ n rest, find_available_port fuel w init
                = Some (Return port, Proc (S n) (failed_log w 0 n
                          ++ [EvSocket n; EvBind n port true; EvClose n]))
              ∧ evs = failed_log w 0 n
                      ++ [EvSocket n; EvBind n port true; EvClose n; EvServe port] ++ rest
              ∧ count is_probe rest = 0%nat.
Proof.
  intros Hs Hin.
  assert (Hprobe : ∀ p st1,
            find_available_port fuel w init = Some (Return p, st1) →
            ∃ n, st1 = Proc (S n) (failed_log w 0 n ++ [EvSocket n; EvBind n p true; EvClose n])
                 ∧ count is_serve (events st1) = 0%nat).
  { intros p st1 Hrun.
    apply find_available_port_first_success in Hrun
      as (n & _ & _ & _ & _ & Hatt & Hev & _ & _).
    exists n. split; [destruct st1; simpl in *; by subst|].
    rewrite Hev, count_app.
    rewrite (probe_only_count _ _ (failed_log_probe w n 0)); [done | by intros []]. }
  destruct (script_cases _ _ _ _ Hs)
    as [(e & st1 & Hrun & -> & ->)
       | (p & st1 & Hrun & Hcases)].
  - by destruct (probe_only_not_in _ (EvServe port)
                   (find_available_port_probe_only _ _ _ _ Hrun) eq_refl).
  - destruct (Hprobe p st1 Hrun) as (n & -> & Hz).
    pose proof (probe_only_not_in _ (EvServe port)
                  (find_available_port_probe_only _ _ _ _ Hrun) eq_refl) as Hno.
    assert (Hport : ∀ tail, EvServe port ∈ EvServe p :: tail →
                            Forall (λ ev, is_serve ev = false) tail → port = p).
    { intros tail Ht Hall. apply elem_of_cons in Ht as [[= ->]|Ht]; [done|].
      rewrite Forall_forall in Hall. by specialize (Hall _ Ht). }
    destruct Hcases as [(Hu & -> & ->) | [(e & Hu & H98 & -> & ->) | (e & Hu & H98 & -> & ->)]];
      apply elem_of_app in Hin as [Hin|Hin]; try done;
      apply Hport in Hin as ->; try (by repeat constructor);
      (split; [rewrite count_app, Hz; done|]);
      exists n; eexists; (split; [done|]); simpl; rewrite <- !app_assoc; simpl;
      (split; [reflexivity|done]).
Qed.

Lemma serve_only_probed_port_witness :
  count is_serve [EvSocket 0; EvBind 0 8000 false; EvSocket 1; EvBind 1 8001 true;
                  EvClose 1; EvServe 8001; EvStdout 8001 2500000] = 1%nat
  ∧ ∃ n rest, find_available_port 4 (quiet_run 1) init
                = Some (Return 8001, Proc (S n) (failed_log (quiet_run 1) 0 n
                          ++ [EvSocket n; EvBind n 8001 true; EvClose n]))
              ∧ [EvSocket 0; EvBind 0 8000 false; EvSocket 1; EvBind 1 8001 true;
                 EvClose 1; EvServe 8001; EvStdout 8001 2500000]
                = failed_log (quiet_run 1) 0 n
                  ++ [EvSocket n; EvBind n 8001 true; EvClose n; EvServe 8001] ++ rest
              ∧ count is_probe rest = 0%nat.
Proof.
  apply (serve_only_probed_port (quiet_run 1) 4 (Exit 0)).
  - reflexivity.
  - do 5 apply list_elem_of_further. apply list_elem_of_here.
Defined.

End ServeLog.

(** * Further properties of shyLLM.py *)

Section QueryFacts.
Import ShyLLM.

Lemma lstrip_head s : head_space (lstrip s) = false.
Proof.
  induction s as [|c s IH]; simpl; [done|].
  destruct (is_space c) eqn:Hc; [done|]. simpl. done.
Qed.

Lemma lstrip_fixed s : head_space s = false → lstrip s = s.
Proof. destruct s as [|c s]; simpl; [done|]. by intros ->. Qed.

Lemma rstrip_last s : last_space (rstrip s) = false.
Proof.
  induction s as [|c s IH]; simpl; [done|].
  destruct (rstrip s) as [|c' r] eqn:Hr.
  - destruct (is_space c) eqn:Hc; simpl; done.
  - done.
Qed.

Lemma rstrip_fixed s : last_space s = false → rstrip s = s.
Proof.
  induction s as [|c s IH]; [done|].
  destruct s as [|c' s'].
  - simpl. by intros ->.
  - intros Hl. change (last_space (String c' s') = false) in Hl.
    change (rstrip (String c (String c' s')))
      with (match rstrip (String c' s') with
            | EmptyString => if is_space c then EmptyString else String c EmptyString
            | r => String c r
            end).
    by rewrite (IH Hl).
Qed.

Lemma rstrip_head s : head_space s = false → head_space (rstrip s) = false.
Proof.
  destruct s as [|c s]; [done|]. simpl. intros Hc.
  destruct (rstrip s); [by rewrite Hc|done].
Qed.

Lemma strip_trimmed s : head_space (strip s) = false ∧ last_space (strip s) = false.
Proof.
  unfold strip. split; [apply rstrip_head, lstrip_head | apply rstrip_last].
Qed.

Lemma strip_fixed s : head_space s = false → last_space s = false → strip s = s.
Proof. intros Hh Hl. unfold strip. by rewrite lstrip_fixed, rstrip_fixed. Qed.

Lemma strip_strip s : strip (strip s) = strip s.
Proof. destruct (strip_trimmed s). by apply strip_fixed. Qed.

Lemma prompt_not_empty_eq v :
  prompt_not_empty v
  = match prompt_errors v with
    | _ :: _ => raise_value (ValidationError_new (prompt_errors v))
    | [] => match v with
            | VStr s => Return (VStr (strip s))
            | _ => Raise (AttributeError "strip")
            end
    end.
Proof.
  unfold prompt_not_empty, prompt_errors.
  by destruct (truthy v), (isinstance_str v).
Qed.

(** When the validators return. *)
Lemma prompt_not_empty_Return v r :
  prompt_not_empty v = Return r ↔ ∃ s, v = VStr s ∧ s ≠ "" ∧ r = VStr (strip s).
Proof.
  rewrite prompt_not_empty_eq. unfold prompt_errors. split.
  - destruct v as [|b|n|x|s]; simpl; try (destruct_all bool; discriminate).
    + destruct (negb (n =? 0)); discriminate.
    + destruct (negb (Qeq_bool x 0)); discriminate.
    + destruct (String.eqb_spec s ""); simpl; [discriminate|].
      intros [= <-]. eauto.
  - intros (s & -> & Hne & ->). simpl.
    by destruct (String.eqb_spec s "").
Qed.

Lemma positive_int_dec v :
  negb (isinstance_int v) || le_zero v = false
  ↔ ((∃ n, v = VInt n ∧ 0 < n) ∨ v = VBool true).
Proof.
  destruct v as [|[|]|n|x|s]; simpl; split; try discriminate; try (by eauto);
    try (by intros [(n' & [= ] & _)|[= ]]).
  - intros Hn. apply Z.leb_gt in Hn. eauto.
  - intros [(n' & [= <-] & Hn)|[= ]]. by apply Z.leb_gt.
Qed.

Lemma validate_max_length_Return v r :
  validate_max_length v = Return r ↔
  r = v ∧ ((∃ n, v = VInt n ∧ 0 < n) ∨ v = VBool true).
Proof.
  unfold validate_max_length. rewrite <- positive_int_dec.
  destruct (negb (isinstance_int v) || le_zero v); simpl; split.
  - discriminate.
  - by intros (_ & ?).
  - by intros [= <-].
  - by intros (-> & _).
Qed.

(** X7: [prompt_not_empty] returns exactly on the non-empty strings, and
    what it returns is that string stripped, which neither begins nor ends
    with whitespace.  On every other value it collects one or two errors
    and then fails while building the ValidationError for them: what comes
    out is the TypeError of the constructor call, not a ValidationError,
    and the [strip] of a non-string is never reached. *)
Theorem prompt_not_empty_spec v :
  (∀ r, prompt_not_empty v = Return r ↔ ∃ s, v = VStr s ∧ s ≠ "" ∧ r = VStr (strip s))
  ∧ (∀ s', prompt_not_empty v = Return (VStr s') →
           head_space s' = false ∧ last_space s' = false)
  ∧ (∀ e, prompt_not_empty v = Raise e →
          (∃ msg, e = TypeError msg)
          ∧ ValidationError_new (prompt_errors v) = Raise e
          ∧ (1 ≤ length (prompt_errors v) ≤ 2)%nat).
Proof.
  split; [apply prompt_not_empty_Return|]. split.
  - intros s' Hs'. apply prompt_not_empty_Return in Hs' as (s & -> & _ & [= ->]).
    apply strip_trimmed.
  - intros e. rewrite prompt_not_empty_eq. unfold prompt_errors.
    destruct (truthy v) eqn:Ht, (isinstance_str v) eqn:Hi; simpl.
    + destruct v; discriminate.
    + intros [= <-]. split; [eauto|]. split; [done|lia].
    + intros [= <-]. split; [eauto|]. split; [done|lia].
    + intros [= <-]. split; [eauto|]. split; [done|lia].
Qed.

Lemma prompt_not_empty_spec_witness :
  (prompt_not_empty (VStr " hi there ") = Return (VStr "hi there"))
  ∧ (head_space "hi there" = false ∧ last_space "hi there" = false)
  ∧ ((∃ msg, TypeError "No constructor defined for ValidationError" = TypeError msg)
     ∧ ValidationError_new (prompt_errors VNone)
       = Raise (TypeError "No constructor defined for ValidationError")
     ∧ (1 ≤ length (prompt_errors VNone) ≤ 2)%nat).
Proof.
  split; [|split].
  - apply (proj1 (prompt_not_empty_spec (VStr " hi there "))).
    exists " hi there ". split; [done|]. split; [discriminate|reflexivity].
  - apply (proj1 (proj2 (prompt_not_empty_spec (VStr " hi there ")))). reflexivity.
  - apply (proj2 (proj2 (prompt_not_empty_spec VNone))). reflexivity.
Defined.

(** X8: validating an accepted prompt once more changes nothing, unless
    the accepted prompt is the empty string (what an all-whitespace input
    turns into): on that one the validator does not return but raises, and
    what it raises is the TypeError of the failed constructor call. *)
Theorem prompt_not_empty_again v s :
  prompt_not_empty v = Return (VStr s) →
  (s ≠ "" → prompt_not_empty (VStr s) = Return (VStr s))
  ∧ (s = "" → ∃ msg, prompt_not_empty (VStr s) = Raise (TypeError msg)).
Proof.
  intros Hv.
  apply prompt_not_empty_Return in Hv as (s0 & -> & Hne & [= ->]).
  split.
  - intros Hs. apply prompt_not_empty_Return.
    exists (strip s0). split; [done|]. split; [done|]. by rewrite strip_strip.
  - intros ->. eexists. reflexivity.
Qed.

Lemma prompt_not_empty_again_witness :
  prompt_not_empty (VStr "a b") = Return (VStr "a b")
  ∧ ∃ msg, prompt_not_empty (VStr "") = Raise (TypeError msg).
Proof.
  split.
  - apply (prompt_not_empty_again (VStr " a b ") "a b"); [reflexivity|discriminate].
  - apply (prompt_not_empty_again (VStr "  ") ""); reflexivity.
Defined.

(** X9: [validate_max_length] returns, and then returns its argument
    unchanged, exactly on the integers above zero and on [True], which is
    an instance of [int] and not [<= 0].  On every other value, [False]
    and floats included, it does not return: building the ValidationError
    fails and the TypeError of the constructor call is what it raises. *)
Theorem validate_max_length_spec v :
  (∀ r, validate_max_length v = Return r ↔
        r = v ∧ ((∃ n, v = VInt n ∧ 0 < n) ∨ v = VBool true))
  ∧ (∀ e, validate_max_length v = Raise e ↔
          ValidationError_new [ValueError "max_length must be a positive integer"] = Raise e
          ∧ ¬ ((∃ n, v = VInt n ∧ 0 < n) ∨ v = VBool true))
  ∧ (∀ e, validate_max_length v = Raise e → ∃ msg, e = TypeError msg).
Proof.
  split; [apply validate_max_length_Return|].
  pose proof (positive_int_dec v) as Hdec.
  unfold validate_max_length.
  destruct (negb (isinstance_int v) || le_zero v) eqn:Hb.
  - assert (Hno : ¬ ((∃ n, v = VInt n ∧ 0 < n) ∨ v = VBool true)).
    { intros Hp. apply Hdec in Hp. congruence. }
    split.
    + intros e. split; [by intros [= <-] | by intros ([= <-] & _)].
    + intros e [= <-]. eauto.
  - pose proof (proj1 Hdec eq_refl) as Hp. split.
    + intros e. split; [discriminate | by intros (_ & Hno)].
    + discriminate.
Qed.

Lemma outcome_bind_Return {A B} (m : outcome A) (k : A → outcome B) b :
  m ≫= k = Return b → ∃ a, m = Return a ∧ k a = Return b.
Proof. destruct m as [a|e]; simpl; [eauto|discriminate]. Qed.

Lemma field_Return body name dflt core validator r :
  field body name dflt core validator = Return r →
  (body !! name = None ∧ dflt = Some r)
  ∨ (∃ raw v, body !! name = Some raw ∧ core raw = Some v ∧ validator v = Return r).
Proof.
  unfold field. destruct (body !! name) as [raw|].
  - destruct (core raw) as [v|] eqn:Hc; [|discriminate]. intros Hv. right. eauto.
  - destruct dflt as [d|]; [|discriminate]. intros [= <-]. by left.
Qed.

Lemma field_required body name core validator :
  body !! name = None →
  field body name None core validator = Raise (ValidationError [ValueError "Field required"]).
Proof. intros Hb. unfold field. by rewrite Hb. Qed.

Lemma validate_max_length_spec_witness :
  ∃ msg, TypeError "No constructor defined for ValidationError" = TypeError msg.
Proof.
  apply (proj2 (proj2 (validate_max_length_spec (VInt 0)))
           (TypeError "No constructor defined for ValidationError")).
  reflexivity.
Defined.

(** X10: every [Query] that validation lets through has a string prompt
    without leading or trailing whitespace, which is the stripped form of a
    non-empty prompt of the body, an integer [max_length] above zero and
    float sampling parameters: these are the only queries a handler sees. *)
Theorem Query_init_valid `{CoreSchema} body query :
  Query_init body = Return query →
  ∃ s n t p,
    query = MkQuery (VStr s) (VInt n) (VFloat t) (VFloat p)
    ∧ 0 < n
    ∧ head_space s = false ∧ last_space s = false
    ∧ ∃ raw s0, body !! "prompt" = Some raw ∧ as_str raw = Some s0
                ∧ s0 ≠ "" ∧ s = strip s0.
Proof.
  unfold Query_init. intros Hq.
  apply outcome_bind_Return in Hq as (vp & Hp & Hq).
  apply outcome_bind_Return in Hq as (vn & Hn & Hq).
  apply outcome_bind_Return in Hq as (vt & Ht & Hq).
  apply outcome_bind_Return in Hq as (vq & Hqq & Hq).
  injection Hq as <-.
  apply field_Return in Hp as [[_ [=]] | (raw & v & Hraw & Hcore & Hv)].
  destruct (as_str raw) as [s0|] eqn:Hs0; [|discriminate]. injection Hcore as <-.
  apply prompt_not_empty_Return in Hv as (s1 & [= <-] & Hne & ->).
  assert (Hlen : ∃ n, vn = VInt n ∧ 0 < n).
  { apply field_Return in Hn as [[_ [= <-]] | (rawn & v & _ & Hcore & Hv)].
    - exists 100. split; [done|lia].
    - destruct (as_int rawn) as [n|]; [|discriminate]. injection Hcore as <-.
      apply validate_max_length_Return in Hv as (-> & [(n' & [= <-] & Hpos)|[=]]).
      eauto. }
  assert (Hfloat : ∀ name d v, field body name (Some (VFloat d))
                                 (λ v, VFloat <$> as_float v) Return = Return v →
                               ∃ x, v = VFloat x).
  { intros name d v Hf.
    apply field_Return in Hf as [[_ [= <-]] | (rawf & v' & _ & Hcore & [= <-])]; [eauto|].
    destruct (as_float rawf) as [x|]; [|discriminate]. injection Hcore as <-. eauto. }
  destruct Hlen as (n & -> & Hpos).
  destruct (Hfloat _ _ _ Ht) as [t ->]. destruct (Hfloat _ _ _ Hqq) as [p ->].
  exists (strip s0), n, t, p. split; [done|]. split; [done|].
  destruct (strip_trimmed s0). eauto 10.
Qed.

Lemma Query_init_valid_witness :
  ∃ s n t p,
    MkQuery (VStr "tell me") (VInt 7) (VFloat 1) (VFloat (95 # 100))
      = MkQuery (VStr s) (VInt n) (VFloat t) (VFloat p)
    ∧ 0 < n
    ∧ head_space s = false ∧ last_space s = false
    ∧ ∃ raw s0, (<["max_length" := VInt 7]> {[ "prompt" := VStr " tell me " ]}
                   : gmap string value) !! "prompt" = Some raw
                ∧ as_str raw = Some s0 ∧ s0 ≠ "" ∧ s = strip s0.
Proof.
  apply (Query_init_valid (<["max_length" := VInt 7]> {[ "prompt" := VStr " tell me " ]})).
  reflexivity.
Defined.

(** X11: a body without a prompt is rejected before the handler runs and
    leaves the state alone, while the three other fields are optional: a
    body with nothing but a non-empty prompt gives the query with
    max_length 100, temperature 1.0 and top_p 0.95. *)
Theorem Query_init_defaults `{CoreSchema} body :
  (body !! "prompt" = None →
     ∃ e, Query_init body = Raise e
          ∧ ∀ E key st, serve E (PostGenerate body key) st = (Rejected e, st))
  ∧ (∀ s, s ≠ "" → body = {[ "prompt" := VStr s ]} →
       Query_init body = Return (MkQuery (VStr (strip s)) (VInt 100) (VFloat 1)
                                         (VFloat (95 # 100)))).
Proof.
  split.
  - intros Hno. eexists.
    assert (Hq : Query_init body = Raise (ValidationError [ValueError "Field required"])).
    { unfold Query_init. by rewrite (field_required _ "prompt" _ _ Hno). }
    split; [exact Hq|]. intros E key st. simpl. by rewrite Hq.
  - intros s Hne ->. unfold Query_init.
    rewrite (field_present _ "prompt" _ _ _ (VStr s)) by apply lookup_singleton_eq.
    rewrite as_str_str. simpl.
    rewrite (proj2 (prompt_not_empty_Return (VStr s) _)) by eauto. simpl.
    rewrite !field_absent by (by apply lookup_singleton_ne).
    reflexivity.
Qed.

Lemma Query_init_defaults_witness :
  (∃ e, Query_init ({[ "max_length" := VInt 5 ]} : gmap string value) = Raise e
        ∧ ∀ E key st, serve E (PostGenerate {[ "max_length" := VInt 5 ]} key) st
                      = (Rejected e, st))
  ∧ Query_init ({[ "prompt" := VStr "hi " ]} : gmap string value)
    = Return (MkQuery (VStr (strip "hi ")) (VInt 100) (VFloat 1) (VFloat (95 # 100))).
Proof.
  split.
  - apply (Query_init_defaults {[ "max_length" := VInt 5 ]}). reflexivity.
  - apply (Query_init_defaults {[ "prompt" := VStr "hi " ]} ); [discriminate|reflexivity].
Defined.

(** X12: the sampling parameters are not range-checked: whatever floats
    the body gives for temperature and top_p, negative or large, end up
    unchanged in the query. *)
Theorem sampling_parameters_unchecked `{CoreSchema} body x y :
  body !! "temperature" = Some (VFloat x) →
  body !! "top_p" = Some (VFloat y) →
  (∀ query, Query_init body = Return query →
            temperature query = VFloat x ∧ top_p query = VFloat y)
  ∧ (∀ s, s ≠ "" → body !! "prompt" = Some (VStr s) → body !! "max_length" = None →
          Query_init body = Return (MkQuery (VStr (strip s)) (VInt 100) (VFloat x) (VFloat y))).
Proof.
  intros Ht Hp.
  assert (Hft : ∀ d, field body "temperature" d (λ v, VFloat <$> as_float v) Return
                     = Return (VFloat x)).
  { intros d. rewrite (field_present _ _ _ _ _ _ Ht). by rewrite as_float_float. }
  assert (Hfp : ∀ d, field body "top_p" d (λ v, VFloat <$> as_float v) Return
                     = Return (VFloat y)).
  { intros d. rewrite (field_present _ _ _ _ _ _ Hp). by rewrite as_float_float. }
  split.
  - intros query. unfold Query_init. rewrite Hft, Hfp. intros Hq.
    apply outcome_bind_Return in Hq as (vp & _ & Hq).
    apply outcome_bind_Return in Hq as (vn & _ & Hq).
    simpl in Hq. by injection Hq as <-.
  - intros s Hne Hs Hn. unfold Query_init. rewrite Hft, Hfp.
    rewrite (field_present _ "prompt" _ _ _ _ Hs), as_str_str. simpl.
    rewrite (proj2 (prompt_not_empty_Return (VStr s) _)) by eauto. simpl.
    by rewrite (field_absent _ "max_length" _ _ _ Hn).
Qed.

Lemma sampling_parameters_unchecked_witness :
  Query_init (<["temperature" := VFloat (-3)]>
                (<["top_p" := VFloat 7]> {[ "prompt" := VStr "hi" ]}) : gmap string value)
  = Return (MkQuery (VStr (strip "hi")) (VInt 100) (VFloat (-3)) (VFloat 7)).
Proof.
  apply (sampling_parameters_unchecked
           (<["temperature" := VFloat (-3)]>
              (<["top_p" := VFloat 7]> {[ "prompt" := VStr "hi" ]})) (-3) 7);
    (reflexivity || discriminate).
Defined.

End QueryFacts.

Section ModelFacts.
Import ShyLLM.

(** The body of [load_model] in one equation: the load counter goes up,
    and an exception that [except Exception] catches is logged and raised
    again. *)
Lemma load_model_body_eq E name st :
  load_model_body E name st
  = match hub_load E (loads st) name with
    | Return p => (Return p, State (cache st) (S (loads st)) (invocations st) (log st))
    | Raise e => (Raise e, State (cache st) (S (loads st)) (invocations st)
                                 (log st ++ logged (LogLoadError name) e))
    end.
Proof.
  unfold load_model_body, hub_load, try_except, lift, raise, logger_exception, logged.
  unfold mbind, mret, M_bind, M_ret, bind, ret, outcome_bind. simpl.
  destruct (tokenizer_from_pretrained E (loads st) name) as [tk|e]; simpl.
  - destruct (model_from_pretrained E (loads st) name) as [md|e]; simpl.
    + destruct (pipeline_new E (loads st) _ md tk) as [e|]; simpl; [|done].
      destruct (is_Exception e); simpl; [done|]. by rewrite app_nil_r.
    + destruct (is_Exception e); simpl; [done|]. by rewrite app_nil_r.
  - destruct (is_Exception e); simpl; [done|]. by rewrite app_nil_r.
Qed.

(** [load_model] in one equation. *)
Lemma load_model_eq E name st :
  load_model E name st
  = match lru_find name (cache st) with
    | Some p => (Return p, set_cache ((name, p) :: lru_drop name (cache st)) st)
    | None =>
        match hub_load E (loads st) name with
        | Return p => (Return p, State [(name, p)] (S (loads st)) (invocations st) (log st))
        | Raise e => (Raise e, State (cache st) (S (loads st)) (invocations st)
                                     (log st ++ logged (LogLoadError name) e))
        end
    end.
Proof.
  unfold load_model, lru_cache. destruct (lru_find name (cache st)); [done|].
  rewrite load_model_body_eq. by destruct (hub_load E (loads st) name).
Qed.

(** X13: a failing load is not memoised.  When [load_model] raises, the
    body has run once, the store is as before and still has no entry for
    the name, the exception is the one the hub raised, logged once if
    [except Exception] catches it; and the next call for the name runs the
    body again. *)
Theorem load_model_failure_not_cached E name st e st' :
  load_model E name st = (Raise e, st') →
  hub_load E (loads st) name = Raise e
  ∧ cache st' = cache st
  ∧ lru_find name (cache st') = None
  ∧ loads st' = S (loads st)
  ∧ invocations st' = invocations st
  ∧ log st' = log st ++ logged (LogLoadError name) e
  ∧ loads (load_model E name st').2 = S (S (loads st)).
Proof.
  rewrite load_model_eq.
  destruct (lru_find name (cache st)) as [p|] eqn:Hf; [discriminate|].
  destruct (hub_load E (loads st) name) as [p|e'] eqn:Hh; [discriminate|].
  intros [= <- <-]. simpl. do 6 (split; [done|]).
  rewrite load_model_eq. simpl. rewrite Hf.
  by destruct (hub_load E (S (loads st)) name).
Qed.

Lemma load_model_failure_not_cached_witness :
  hub_load (offline ∅ (OSError None)) (loads init) "m" = Raise (OSError None)
  ∧ cache (State [] 1 [] [LogLoadError "m" (OSError None)]) = cache init
  ∧ lru_find "m" (cache (State [] 1 [] [LogLoadError "m" (OSError None)])) = None
  ∧ loads (State [] 1 [] [LogLoadError "m" (OSError None)]) = S (loads init)
  ∧ invocations (State [] 1 [] [LogLoadError "m" (OSError None)]) = invocations init
  ∧ log (State [] 1 [] [LogLoadError "m" (OSError None)])
    = log init ++ logged (LogLoadError "m") (OSError None)
  ∧ loads (load_model (offline ∅ (OSError None)) "m"
             (State [] 1 [] [LogLoadError "m" (OSError None)])).2 = S (S (loads init)).
Proof.
  apply (load_model_failure_not_cached (offline ∅ (OSError None)) "m" init (OSError None)).
  reflexivity.
Defined.

(** The [try] statement of [generate_text] in one equation. *)
Lemma try_generation_eq E query st :
  try_generation E query st
  = match load_model E (MODEL_NAME (environ E)) st with
    | (Raise e, st1) =>
        if is_Exception e
        then (Raise generation_error, append_log [LogGenerateError e] st1)
        else (Raise e, st1)
    | (Return llm, st1) =>
        let st2 := record_call (invocation_of llm query) st1 in
        match generate E (length (invocations st1)) (invocation_of llm query) with
        | Raise e =>
            if is_Exception e
            then (Raise generation_error, append_log [LogGenerateError e] st2)
            else (Raise e, st2)
        | Return [] =>
            (Raise generation_error, append_log [LogGenerateError IndexError] st2)
        | Return (first :: _) =>
            match first !! "generated_text" with
            | Some text =>
                (Return (<["prompt" := prompt query]> {[ "response" := text ]}), st2)
            | None =>
                (Raise generation_error,
                 append_log [LogGenerateError (KeyError "generated_text")] st2)
            end
        end
    end.
Proof.
  unfold try_generation, try_except, generation, call_pipeline, on_generation_error.
  unfold lift, raise, logger_exception, invocation_of, record_call, append_log.
  unfold mbind, mret, M_bind, M_ret, bind, ret.
  destruct (load_model E (MODEL_NAME (environ E)) st) as [[llm|e] st1]; [|done].
  destruct (generate E _ _) as [output|e]; simpl; [|done].
  destruct output as [|first output]; simpl; [done|].
  unfold getitem. by destruct (first !! "generated_text").
Qed.

(** X14: an authorized request whose model loads and whose pipeline
    returns a non-empty list with a "generated_text" in its first element
    is answered with the prompt of the query and that text; the other
    elements of the output are ignored, the call is recorded once and
    nothing is logged. *)
Theorem generate_text_ok E query api_key st llm st1 first rest text :
  unauthorized E api_key = false →
  load_model E (MODEL_NAME (environ E)) st = (Return llm, st1) →
  generate E (length (invocations st1)) (invocation_of llm query) = Return (first :: rest) →
  first !! "generated_text" = Some text →
  generate_text E query api_key st
  = (Return (<["prompt" := prompt query]> {[ "response" := text ]}),
     record_call (invocation_of llm query) st1)
  ∧ log (generate_text E query api_key st).2 = log st1.
Proof.
  intros Hk Hload Hgen Htext. unfold generate_text. rewrite Hk.
  rewrite try_generation_eq, Hload. simpl. by rewrite Hgen, Htext.
Qed.

Lemma generate_text_ok_witness :
  generate_text (answering [ {[ "generated_text" := VStr "one" ]};
                            {[ "generated_text" := VStr "two" ]} ])
                (ask "hi") "" init
  = (Return (<["prompt" := prompt (ask "hi")]> {[ "response" := VStr "one" ]}),
     record_call (invocation_of (loaded "Qwen/Qwen2.5-Coder-7B-Instruct" 0) (ask "hi"))
       (State [("Qwen/Qwen2.5-Coder-7B-Instruct",
                loaded "Qwen/Qwen2.5-Coder-7B-Instruct" 0)] 1 [] []))
  ∧ log (generate_text (answering [ {[ "generated_text" := VStr "one" ]};
                                   {[ "generated_text" := VStr "two" ]} ])
                       (ask "hi") "" init).2
    = log (State [("Qwen/Qwen2.5-Coder-7B-Instruct",
                   loaded "Qwen/Qwen2.5-Coder-7B-Instruct" 0)] 1 [] []).
Proof.
  apply (generate_text_ok
           (answering [ {[ "generated_text" := VStr "one" ]};
                        {[ "generated_text" := VStr "two" ]} ])
           (ask "hi") "" init (loaded "Qwen/Qwen2.5-Coder-7B-Instruct" 0)
           (State [("Qwen/Qwen2.5-Coder-7B-Instruct",
                    loaded "Qwen/Qwen2.5-Coder-7B-Instruct" 0)] 1 [] [])
           {[ "generated_text" := VStr "one" ]}
           [ {[ "generated_text" := VStr "two" ]} ] (VStr "one"));
    reflexivity.
Defined.

(** X15: when the pipeline answers with an empty list, or with a first
    element that has no "generated_text", the request ends in the 500
    response, and the log gets the IndexError or the KeyError that the
    lookup raised; the pipeline call itself is still on record. *)
Theorem generate_text_malformed_output E query api_key st llm st1 output :
  unauthorized E api_key = false →
  load_model E (MODEL_NAME (environ E)) st = (Return llm, st1) →
  generate E (length (invocations st1)) (invocation_of llm query) = Return output →
  (output = [] →
     generate_text E query api_key st
     = (Raise generation_error,
        append_log [LogGenerateError IndexError]
          (record_call (invocation_of llm query) st1)))
  ∧ (∀ first rest, output = first :: rest → first !! "generated_text" = None →
     generate_text E query api_key st
     = (Raise generation_error,
        append_log [LogGenerateError (KeyError "generated_text")]
          (record_call (invocation_of llm query) st1))).
Proof.
  intros Hk Hload Hgen. unfold generate_text. rewrite Hk.
  rewrite try_generation_eq, Hload. simpl. rewrite Hgen.
  split; [by intros ->|]. intros first rest -> Hnone. by rewrite Hnone.
Qed.

Lemma generate_text_malformed_output_witness :
  generate_text (answering []) (ask "hi") "" init
  = (Raise generation_error,
     append_log [LogGenerateError IndexError]
       (record_call (invocation_of (loaded "Qwen/Qwen2.5-Coder-7B-Instruct" 0) (ask "hi"))
          (State [("Qwen/Qwen2.5-Coder-7B-Instruct",
                   loaded "Qwen/Qwen2.5-Coder-7B-Instruct" 0)] 1 [] [])))
  ∧ generate_text (answering [ {[ "text" := VStr "one" ]} ]) (ask "hi") "" init
  = (Raise generation_error,
     append_log [LogGenerateError (KeyError "generated_text")]
       (record_call (invocation_of (loaded "Qwen/Qwen2.5-Coder-7B-Instruct" 0) (ask "hi"))
          (State [("Qwen/Qwen2.5-Coder-7B-Instruct",
                   loaded "Qwen/Qwen2.5-Coder-7B-Instruct" 0)] 1 [] []))).
Proof.
  split.
  - apply (generate_text_malformed_output (answering []) (ask "hi") "" init
             (loaded "Qwen/Qwen2.5-Coder-7B-Instruct" 0)
             (State [("Qwen/Qwen2.5-Coder-7B-Instruct",
                      loaded "Qwen/Qwen2.5-Coder-7B-Instruct" 0)] 1 [] []) []);
      reflexivity.
  - destruct (generate_text_malformed_output (answering [ {[ "text" := VStr "one" ]} ])
                (ask "hi") "" init
                (loaded "Qwen/Qwen2.5-Coder-7B-Instruct" 0)
                (State [("Qwen/Qwen2.5-Coder-7B-Instruct",
                         loaded "Qwen/Qwen2.5-Coder-7B-Instruct" 0)] 1 [] [])
                [ {[ "text" := VStr "one" ]} ]) as [_ Hkey]; [reflexivity..|].
    apply (Hkey {[ "text" := VStr "one" ]} []); reflexivity.
Defined.

(** X16: when the model cannot be loaded, the request ends in the 500
    response without any pipeline call; the failure is logged twice, once
    by [load_model] and once by [generate_text]; nothing is cached, so the
    next request attempts the load again. *)
Theorem generate_text_load_failure E query api_key st e st1 :
  unauthorized E api_key = false →
  load_model E (MODEL_NAME (environ E)) st = (Raise e, st1) →
  is_Exception e = true →
  generate_text E query api_key st
  = (Raise generation_error,
     State (cache st) (S (loads st)) (invocations st)
           (log st ++ [LogLoadError (MODEL_NAME (environ E)) e; LogGenerateError e]))
  ∧ lru_find (MODEL_NAME (environ E)) (cache st) = None.
Proof.
  intros Hk Hload He.
  pose proof Hload as Hl. rewrite load_model_eq in Hl.
  destruct (lru_find _ (cache st)) as [p|] eqn:Hf; [discriminate|].
  destruct (hub_load E (loads st) _) as [p|e']; [discriminate|].
  injection Hl as -> <-. split; [|done].
  unfold generate_text. rewrite Hk, try_generation_eq, Hload, He.
  unfold append_log, logged. rewrite He. simpl. by rewrite <- app_assoc.
Qed.

Lemma generate_text_load_failure_witness :
  generate_text (offline ∅ (OSError None)) (ask "hi") "" init
  = (Raise generation_error,
     State (cache init) (S (loads init)) (invocations init)
           (log init ++ [LogLoadError (MODEL_NAME (environ (offline ∅ (OSError None))))
                           (OSError None);
                         LogGenerateError (OSError None)]))
  ∧ lru_find (MODEL_NAME (environ (offline ∅ (OSError None)))) (cache init) = None.
Proof.
  apply (generate_text_load_failure (offline ∅ (OSError None)) (ask "hi") "" init
           (OSError None)
           (State [] 1 [] [LogLoadError "Qwen/Qwen2.5-Coder-7B-Instruct" (OSError None)]));
    reflexivity.
Defined.

Lemma load_model_log_on_return E name st p st1 :
  load_model E name st = (Return p, st1) →
  log st1 = log st ∧ invocations st1 = invocations st.
Proof.
  rewrite load_model_eq. destruct (lru_find name (cache st)).
  - by intros [= <- <-].
  - destruct (hub_load E (loads st) name); [|discriminate]. by intros [= <- <-].
Qed.

(** X17: whenever [generate_text] returns, the credential was accepted,
    the answer is a dictionary with exactly the keys "prompt" and
    "response", the prompt is the one of the query, one pipeline call for
    this query was added to the record, and nothing was logged. *)
Theorem generate_text_response_shape E query api_key st d st' :
  generate_text E query api_key st = (Return d, st') →
  unauthorized E api_key = false
  ∧ (∃ text, d = <["prompt" := prompt query]> {[ "response" := text ]})
  ∧ d !! "prompt" = Some (prompt query)
  ∧ dom d = {[ "prompt"; "response" ]}
  ∧ (∃ llm, invocations st' = invocations st ++ [invocation_of llm query])
  ∧ log st' = log st.
Proof.
  unfold generate_text. destruct (unauthorized E api_key); [discriminate|].
  rewrite try_generation_eq.
  destruct (load_model E _ st) as [[llm|e] st1] eqn:Hload.
  - destruct (load_model_log_on_return _ _ _ _ _ Hload) as [Hlog Hinv].
    simpl. destruct (generate E _ _) as [[|first rest]|e].
    + discriminate.
    + destruct (first !! "generated_text") as [text|]; [|discriminate].
      intros [= <- <-]. split; [done|]. split; [eauto|].
      split; [by rewrite lookup_insert_eq|]. split.
      { rewrite dom_insert_L, dom_singleton_L. done. }
      split; [|done]. exists llm. simpl. by rewrite Hinv.
    + destruct (is_Exception e); discriminate.
  - destruct (is_Exception e); discriminate.
Qed.

Lemma generate_text_response_shape_witness :
  unauthorized (hub {[ "SHYLLM_API_KEY" := "s3cret" ]} hello) "s3cret" = false
  ∧ (∃ text, <["prompt" := VStr "hi"]> {[ "response" := VStr "Hello" ]}
             = <["prompt" := prompt (ask "hi")]> ({[ "response" := text ]} : gmap string value))
  ∧ (<["prompt" := VStr "hi"]> {[ "response" := VStr "Hello" ]} : gmap string value)
      !! "prompt" = Some (prompt (ask "hi"))
  ∧ dom (<["prompt" := VStr "hi"]> {[ "response" := VStr "Hello" ]} : gmap string value)
    = {[ "prompt"; "response" ]}
  ∧ (∃ llm, invocations (generate_text (hub {[ "SHYLLM_API_KEY" := "s3cret" ]} hello)
                           (ask "hi") "s3cret" init).2
            = invocations init ++ [invocation_of llm (ask "hi")])
  ∧ log (generate_text (hub {[ "SHYLLM_API_KEY" := "s3cret" ]} hello)
           (ask "hi") "s3cret" init).2 = log init.
Proof.
  apply (generate_text_response_shape (hub {[ "SHYLLM_API_KEY" := "s3cret" ]} hello)
           (ask "hi") "s3cret" init).
  reflexivity.
Defined.

(** X18: a caller of [generate_text] sees two errors only, the 401 and the
    500 response; anything else it raises is an exception outside
    [Exception] (a KeyboardInterrupt, a SystemExit) that came from the load
    or the pipeline, and that one is passed on as it is, with no log
    record of [generate_text]. *)
Theorem generate_text_raises E query api_key st e st' :
  generate_text E query api_key st = (Raise e, st') →
  (e = unauthorized_error ∧ st' = st)
  ∨ e = generation_error
  ∨ (is_Exception e = false
     ∧ ((load_model E (MODEL_NAME (environ E)) st = (Raise e, st') ∧ log st' = log st)
        ∨ ∃ llm st1, load_model E (MODEL_NAME (environ E)) st = (Return llm, st1)
                     ∧ generate E (length (invocations st1)) (invocation_of llm query)
                       = Raise e
                     ∧ st' = record_call (invocation_of llm query) st1
                     ∧ log st' = log st)).
Proof.
  unfold generate_text. destruct (unauthorized E api_key).
  { intros [= <- <-]. by left. }
  rewrite try_generation_eq.
  destruct (load_model E _ st) as [[llm|e0] st1] eqn:Hload.
  - destruct (load_model_log_on_return _ _ _ _ _ Hload) as [Hlog Hinv].
    simpl. destruct (generate E _ _) as [[|first rest]|e1] eqn:Hgen.
    + intros [= <- <-]. by right; left.
    + destruct (first !! "generated_text"); [discriminate|].
      intros [= <- <-]. by right; left.
    + destruct (is_Exception e1) eqn:He1.
      * intros [= <- <-]. by right; left.
      * intros [= <- <-]. right; right. split; [done|]. right.
        exists llm, st1. done.
  - destruct (is_Exception e0) eqn:He0.
    + intros [= <- <-]. by right; left.
    + intros [= <- <-]. right; right. split; [done|]. left. split; [done|].
      pose proof Hload as Hl. rewrite load_model_eq in Hl.
      destruct (lru_find _ (cache st)); [discriminate|].
      destruct (hub_load E (loads st) _); [discriminate|].
      injection Hl as -> <-. simpl. unfold logged. rewrite He0. by rewrite app_nil_r.
Qed.

Lemma generate_text_raises_witness :
  (KeyboardInterrupt = unauthorized_error
   ∧ record_call (invocation_of (loaded "Qwen/Qwen2.5-Coder-7B-Instruct" 0) (ask "hi"))
       (State [("Qwen/Qwen2.5-Coder-7B-Instruct",
                loaded "Qwen/Qwen2.5-Coder-7B-Instruct" 0)] 1 [] []) = init)
  ∨ KeyboardInterrupt = generation_error
  ∨ (is_Exception KeyboardInterrupt = false
     ∧ ((load_model (hub ∅ (Raise KeyboardInterrupt))
           (MODEL_NAME (environ (hub ∅ (Raise KeyboardInterrupt)))) init
         = (Raise KeyboardInterrupt,
            record_call (invocation_of (loaded "Qwen/Qwen2.5-Coder-7B-Instruct" 0) (ask "hi"))
              (State [("Qwen/Qwen2.5-Coder-7B-Instruct",
                       loaded "Qwen/Qwen2.5-Coder-7B-Instruct" 0)] 1 [] []))
         ∧ log (record_call (invocation_of (loaded "Qwen/Qwen2.5-Coder-7B-Instruct" 0)
                               (ask "hi"))
                  (State [("Qwen/Qwen2.5-Coder-7B-Instruct",
                           loaded "Qwen/Qwen2.5-Coder-7B-Instruct" 0)] 1 [] []))
           = log init)
        ∨ ∃ llm st1,
            load_model (hub ∅ (Raise KeyboardInterrupt))
              (MODEL_NAME (environ (hub ∅ (Raise KeyboardInterrupt)))) init
            = (Return llm, st1)
            ∧ generate (hub ∅ (Raise KeyboardInterrupt)) (length (invocations st1))
                (invocation_of llm (ask "hi")) = Raise KeyboardInterrupt
            ∧ record_call (invocation_of (loaded "Qwen/Qwen2.5-Coder-7B-Instruct" 0)
                             (ask "hi"))
                (State [("Qwen/Qwen2.5-Coder-7B-Instruct",
                         loaded "Qwen/Qwen2.5-Coder-7B-Instruct" 0)] 1 [] [])
              = record_call (invocation_of llm (ask "hi")) st1
            ∧ log (record_call (invocation_of (loaded "Qwen/Qwen2.5-Coder-7B-Instruct" 0)
                                  (ask "hi"))
                     (State [("Qwen/Qwen2.5-Coder-7B-Instruct",
                              loaded "Qwen/Qwen2.5-Coder-7B-Instruct" 0)] 1 [] []))
              = log init)).
Proof.
  apply (generate_text_raises (hub ∅ (Raise KeyboardInterrupt)) (ask "hi") "" init).
  reflexivity.
Defined.

(** ** The process as a whole *)

Lemma generate_text_one_pipeline E query api_key st :
  one_pipeline E st → one_pipeline E (generate_text E query api_key st).2.
Proof.
  intros Hinv. unfold generate_text.
  destruct (unauthorized E api_key); [done|].
  rewrite try_generation_eq, load_model_eq.
  destruct Hinv as [[Hc Hi] | (p & Hc & Hall)]; rewrite Hc; simpl.
  - destruct (hub_load E (loads st) _) as [p|e]; simpl.
    + assert (Hnew : ∀ st2, cache st2 = [(MODEL_NAME (environ E), p)] →
                invocations st2 = [] ++ [invocation_of p query] → one_pipeline E st2).
      { intros st2 Hc2 Hi2. right. exists p. split; [done|].
        rewrite Hi2. by repeat constructor. }
      rewrite Hi.
      destruct (generate E _ _) as [[|first rest]|e]; simpl.
      * by apply Hnew.
      * destruct (first !! "generated_text"); by apply Hnew.
      * destruct (is_Exception e); by apply Hnew.
    + destruct (is_Exception e); simpl; left; by rewrite ?Hc, ?Hi.
  - rewrite decide_True by done. simpl. rewrite decide_True by done.
    assert (Hnew : ∀ st2, cache st2 = [(MODEL_NAME (environ E), p)] →
              invocations st2 = invocations st ++ [invocation_of p query] →
              one_pipeline E st2).
    { intros st2 Hc2 Hi2. right. exists p. split; [done|].
      rewrite Hi2. apply Forall_app. split; [done|]. by repeat constructor. }
    destruct (generate E _ _) as [[|first rest]|e]; simpl.
    * by apply Hnew.
    * destruct (first !! "generated_text"); by apply Hnew.
    * destruct (is_Exception e); by apply Hnew.
Qed.

Lemma serve_one_pipeline `{CoreSchema} E req st :
  one_pipeline E st → one_pipeline E (serve E req st).2.
Proof.
  intros Hinv. destruct req as [| |body key]; simpl; try done.
  destruct (Query_init body) as [query|e]; simpl; [|done].
  unfold handled.
  pose proof (generate_text_one_pipeline E query (default "" key) st Hinv) as Hg.
  by destruct (generate_text E query (default "" key) st).
Qed.

Lemma serve_all_one_pipeline `{CoreSchema} E reqs : ∀ st,
  one_pipeline E st → one_pipeline E (serve_all E reqs st).
Proof.
  induction reqs as [|req reqs IH]; intros st Hinv; simpl; [done|].
  by apply IH, serve_one_pipeline.
Qed.

(** X19: in a process that has served any sequence of requests since it
    started, all pipeline calls were made on one and the same pipeline
    object, the one the store holds under [MODEL_NAME]. *)
Theorem process_uses_one_pipeline `{CoreSchema} E reqs inv1 inv2 :
  inv1 ∈ invocations (serve_all E reqs init) →
  inv2 ∈ invocations (serve_all E reqs init) →
  inv_pipeline inv1 = inv_pipeline inv2
  ∧ cache (serve_all E reqs init) = [(MODEL_NAME (environ E), inv_pipeline inv1)].
Proof.
  intros H1 H2.
  destruct (serve_all_one_pipeline E reqs init) as [[_ Hi] | (p & Hc & Hall)].
  { by left. }
  { rewrite Hi in H1. by apply elem_of_nil in H1. }
  rewrite Forall_forall in Hall.
  rewrite (Hall _ H1), (Hall _ H2). done.
Qed.

Lemma process_uses_one_pipeline_witness :
  inv_pipeline (invocation_of (loaded "Qwen/Qwen2.5-Coder-7B-Instruct" 0) (ask "a"))
  = inv_pipeline (invocation_of (loaded "Qwen/Qwen2.5-Coder-7B-Instruct" 0) (ask "b"))
  ∧ cache (serve_all (hub ∅ hello)
             [PostGenerate {[ "prompt" := VStr "a" ]} None; GetRoot;
              PostGenerate {[ "prompt" := VStr "b" ]} None] init)
    = [(MODEL_NAME (environ (hub ∅ hello)),
        inv_pipeline (invocation_of (loaded "Qwen/Qwen2.5-Coder-7B-Instruct" 0) (ask "a")))].
Proof.
  apply (process_uses_one_pipeline (hub ∅ hello)
           [PostGenerate {[ "prompt" := VStr "a" ]} None; GetRoot;
            PostGenerate {[ "prompt" := VStr "b" ]} None]).
  - apply list_elem_of_here.
  - apply list_elem_of_further, list_elem_of_here.
Defined.

Lemma generate_text_counts E query api_key st :
  (loads (generate_text E query api_key st).2 ≤ S (loads st))%nat
  ∧ (length (invocations (generate_text E query api_key st).2)
     ≤ S (length (invocations st)))%nat.
Proof.
  unfold generate_text. destruct (unauthorized E api_key); [simpl; lia|].
  rewrite try_generation_eq, load_model_eq.
  destruct (lru_find _ (cache st)) as [p|]; simpl.
  - destruct (generate E _ _) as [[|first rest]|e]; simpl;
      [ | destruct (first !! "generated_text") | destruct (is_Exception e)];
      simpl; rewrite ?length_app; simpl; lia.
  - destruct (hub_load E (loads st) _) as [p|e]; simpl.
    + destruct (generate E _ _) as [[|first rest]|e]; simpl;
        [ | destruct (first !! "generated_text") | destruct (is_Exception e)];
        simpl; rewrite ?length_app; simpl; lia.
    + destruct (is_Exception e); simpl; lia.
Qed.

(** X20: the model is loaded lazily and at most once per POST /generate:
    after any sequence of requests the number of loads and the number of
    pipeline calls are both bounded by the number of POST /generate among
    them, so a process that has only served GET / and GET /health has
    loaded nothing. *)
Theorem loads_bounded_by_posts `{CoreSchema} E reqs st :
  (loads (serve_all E reqs st) ≤ loads st + posts reqs)%nat
  ∧ (length (invocations (serve_all E reqs st))
     ≤ length (invocations st) + posts reqs)%nat.
Proof.
  revert st. induction reqs as [|req reqs IH]; intros st; simpl; [lia|].
  destruct (IH (serve E req st).2) as [Hl Hi].
  destruct req as [| |body key]; simpl in *; try lia.
  destruct (Query_init body) as [query|e]; simpl in *; [|lia].
  unfold handled in *.
  pose proof (generate_text_counts E query (default "" key) st) as [Hl' Hi'].
  destruct (generate_text E query (default "" key) st) as [r st']. simpl in *. lia.
Qed.

End ModelFacts.

(** * Properties of shyLLM.py, version 0.0.1 *)

Section StreamFacts.
Import ShyLLM ShyLLM_v1.

Lemma stream_suite_raises answer :
  ∃ e, stream_suite answer = Raise e
       ∧ (is_Exception e = true ∨ answer = Raise e).
Proof.
  unfold stream_suite. destruct answer as [output|e]; simpl; [|eauto].
  destruct output as [|first rest]; simpl; [eauto|].
  unfold getitem. destruct (first !! "generated_text") as [text|]; simpl; [|eauto].
  destruct text; simpl; eauto.
Qed.

(** X21: POST /stream never succeeds.  The handler ends by awaiting a
    [Response], which raises TypeError, so even when the pipeline answers
    well the request is turned into the 500 response "Error streaming
    text."; the only other way out is an exception outside [Exception]
    raised by the pipeline call, which passes through.  The pipeline is
    called once all the same. *)
Theorem stream_text_never_returns A query calls :
  (∃ e, (stream_text A query calls).1 = Raise e
        ∧ (e = HTTPException 500 "Error streaming text."
           ∨ (is_Exception e = false
              ∧ generate A (length calls) (invocation_of (llm_pipeline A) query) = Raise e)))
  ∧ (∀ output, generate A (length calls) (invocation_of (llm_pipeline A) query)
               = Return output →
               (stream_text A query calls).1 = Raise (HTTPException 500 "Error streaming text."))
  ∧ (stream_text A query calls).2 = calls ++ [invocation_of (llm_pipeline A) query].
Proof.
  unfold stream_text.
  destruct (stream_suite_raises
              (generate A (length calls) (invocation_of (llm_pipeline A) query)))
    as (e & Hs & He).
  rewrite Hs. split; [|split].
  - destruct (is_Exception e) eqn:Hex; simpl.
    + eauto.
    + exists e. split; [done|]. right. split; [done|].
      destruct He as [He|He]; [congruence|done].
  - intros output Hout. rewrite Hout in He.
    destruct He as [He|He]; [|discriminate]. by rewrite He.
  - by destruct (is_Exception e).
Qed.

Lemma stream_text_never_returns_witness :
  (stream_text (App (loaded "m" 0) (λ _ _, hello)) (ask "hi") []).1
  = Raise (HTTPException 500 "Error streaming text.").
Proof.
  apply (proj1 (proj2 (stream_text_never_returns
                         (App (loaded "m" 0) (λ _ _, hello)) (ask "hi") []))
           [ {[ "generated_text" := VStr "Hello" ]} ]).
  reflexivity.
Defined.

End StreamFacts.
